(** * TimeBackup: a shallow embedding of [time_backup.py]

    The plugin schedules periodic archive backups of a game server.  This
    development embeds its four components

    - [parse_interval]  (the interval parser),
    - [parse_paths]     (the include/exclude path selector),
    - [Timer.package_zip]   (the archive builder),
    - [Timer.create_backup] (the backup coordinator, with [send_now]),

    together with [format_file_name], and states the properties of the
    design document against them.  It then embeds [Timer.on_message],
    [on_info], [Timer.loop] and [convert_bytes], and states further
    properties read off the code.

    Conventions.  A Python [str] whose characters have code points below 256
    is a [string], one [ascii] per character.  Python integers are [Z].
    A call that may raise returns an [outcome].  Effects on the host (chat
    messages, console commands, log records) are collected in a list of
    [event]s, oldest first. *)

From Stdlib Require Import ZArith List String Ascii Bool Arith Lia.
From Stdlib Require Import DecimalString.
Import ListNotations.

Local Open Scope string_scope.
Local Open Scope Z_scope.

(* ================================================================== *)
(** * Part I: the embedding *)
(* ================================================================== *)

(** ** Python primitives used by the plugin *)

Module Py.

(** The exceptions the modelled code can meet. *)
Inductive exn : Type :=
| ValueError
| ZeroDivisionError
| PermissionError
| RuntimeError
| OtherError (tag : nat).

Inductive outcome (A : Type) : Type :=
| Returns (a : A)
| Raises (e : exn).

Arguments Returns {A} a.
Arguments Raises {A} e.

Definition bind {A B : Type} (m : outcome A) (k : A -> outcome B) : outcome B :=
  match m with
  | Returns a => k a
  | Raises e => Raises e
  end.

Definition code (c : ascii) : N := N_of_ascii c.

(** The characters [0] .. [9]. *)
Definition isdecimal (c : ascii) : bool :=
  (48 <=? code c)%N && (code c <=? 57)%N.

(** [str.isdigit] on one character: the decimal digits and, below code
    point 256, the superscripts U+00B2, U+00B3 and U+00B9. *)
Definition isdigit (c : ascii) : bool :=
  isdecimal c || (code c =? 178)%N || (code c =? 179)%N || (code c =? 185)%N.

Definition digit_value (c : ascii) : Z := Z.of_N (code c) - 48.

Fixpoint int_from (acc : Z) (s : string) : outcome Z :=
  match s with
  | EmptyString => Returns acc
  | String c rest =>
      if isdecimal c then int_from (10 * acc + digit_value c) rest
      else Raises ValueError
  end.

(** The default of [sys.int_max_str_digits]: the longest decimal text that
    [int] converts. *)
Definition max_str_digits : Z := 4300.

(** [int(s)] for a [str] of digit characters: base ten, [ValueError] on the
    empty string, on a text of more than [max_str_digits] characters and on
    a character that is not decimal. *)
Definition int (s : string) : outcome Z :=
  match s with
  | EmptyString => Raises ValueError
  | _ =>
      if max_str_digits <? Z.of_nat (String.length s) then Raises ValueError
      else int_from 0 s
  end.

(** [s[1:]] *)
Definition tail (s : string) : string :=
  match s with
  | EmptyString => EmptyString
  | String _ rest => rest
  end.

(** [s.startswith(c)] for a one-character prefix. *)
Definition startswith (s : string) (c : ascii) : bool :=
  match s with
  | EmptyString => false
  | String c0 _ => Ascii.eqb c0 c
  end.

(** [s.endswith(suffix)] *)
Definition endswith (s suffix : string) : bool :=
  let n := String.length s in
  let k := String.length suffix in
  (k <=? n)%nat && String.eqb (substring (n - k) k s) suffix.

(** [s.replace(c, r)] for one-character [c] and [r]. *)
Fixpoint replace (c r : ascii) (s : string) : string :=
  match s with
  | EmptyString => EmptyString
  | String x rest => String (if Ascii.eqb x c then r else x) (replace c r rest)
  end.

(** The string with [f] applied to each character. *)
Fixpoint map_chars (f : ascii -> ascii) (s : string) : string :=
  match s with
  | EmptyString => EmptyString
  | String x rest => String (f x) (map_chars f rest)
  end.

(** [c in s] for a character [c]. *)
Fixpoint contains (s : string) (c : ascii) : bool :=
  match s with
  | EmptyString => false
  | String x rest => Ascii.eqb x c || contains rest c
  end.

End Py.

Import Py.

(** ** IntervalParser: [parse_interval] *)

Module IntervalParser.

(** [time_map = {"s": 1, "m": 60, "h": 3600, "d": 3600 * 24}], keyed by
    character; [None] is an absent key. *)
Definition time_map (c : ascii) : option Z :=
  if Ascii.eqb c "s" then Some 1
  else if Ascii.eqb c "m" then Some 60
  else if Ascii.eqb c "h" then Some 3600
  else if Ascii.eqb c "d" then Some (3600 * 24)
  else None.

(** The inner [add(s)], with the closure variables [digit] and [result]
    passed in; [s = None] is the default argument, the empty string, for
    which [time_map.get(s, 1)] is 1.  [int(digit or 1)] is 1 for an empty
    [digit]. *)
Definition add (digit : string) (result : Z) (s : option ascii)
  : outcome (Z * string) :=
  let unit_seconds :=
    match s with
    | Some c => match time_map c with Some v => v | None => 1 end
    | None => 1
    end in
  bind (match digit with EmptyString => Returns 1 | _ => int digit end)
       (fun n => Returns (result + n * unit_seconds, EmptyString)).

(** The [for s in ...] loop, threading [(digit, result)]. *)
Fixpoint scan (text : string) (digit : string) (result : Z)
  : outcome (string * Z) :=
  match text with
  | EmptyString => Returns (digit, result)
  | String s rest =>
      if isdigit s then scan rest (digit ++ String s EmptyString) result
      else
        match time_map s with
        | Some _ =>
            bind (add digit result (Some s))
                 (fun rd => scan rest (snd rd) (fst rd))
        | None => scan rest digit result
        end
  end.

Definition parse_interval (str_interval : string) : outcome Z :=
  bind (scan (str_interval ++ " ") EmptyString 0)
       (fun st =>
          match fst st with
          | EmptyString => Returns (snd st)
          | _ => bind (add (fst st) (snd st) None) (fun rd => Returns (fst rd))
          end).

(** A complete term of the interval grammar: a possibly empty run of decimal
    digits followed by one unit character. *)
Fixpoint is_term (a : string) : bool :=
  match a with
  | EmptyString => false
  | String c EmptyString =>
      match time_map c with Some _ => true | None => false end
  | String c rest => isdecimal c && is_term rest
  end.

(** *** The grammar as the design document states it *)

Fixpoint all_decimal (s : string) : bool :=
  match s with
  | EmptyString => true
  | String c rest => isdecimal c && all_decimal rest
  end.

(** No character that [isdigit] accepts and [int] refuses. *)
Fixpoint plain_digits (s : string) : bool :=
  match s with
  | EmptyString => true
  | String c rest => (isdecimal c || negb (isdigit c)) && plain_digits rest
  end.

(** The number a run of decimal digits denotes. *)
Definition decimal (s : string) : Z :=
  fold_left (fun acc c => 10 * acc + digit_value c) (list_ascii_of_string s) 0.

(** The multiplier of a term: 1 for an omitted digit run. *)
Definition multiplier (digits : string) : Z :=
  match digits with
  | EmptyString => 1
  | _ => decimal digits
  end.

Definition seconds (unit : ascii) : Z :=
  match time_map unit with
  | Some v => v
  | None => 1
  end.

(** The terms of a text, each a digit run with its unit character, and the
    digit run left at the end; characters that are neither decimal digits
    nor units are passed over. *)
Fixpoint tokens (s : string) : list (string * ascii) * string :=
  match s with
  | EmptyString => ([], EmptyString)
  | String c rest =>
      let (terms, trailing) := tokens rest in
      if isdecimal c then
        match terms with
        | [] => ([], String c trailing)
        | (digits, unit) :: more => ((String c digits, unit) :: more, trailing)
        end
      else
        match time_map c with
        | Some _ => ((EmptyString, c) :: terms, trailing)
        | None => (terms, trailing)
        end
  end.

Definition term_value (t : string * ascii) : Z :=
  multiplier (fst t) * seconds (snd t).

Definition total (terms : list (string * ascii)) : Z :=
  fold_right (fun t acc => term_value t + acc) 0 terms.

(** A digit run left at the end counts as raw seconds. *)
Definition trailing_value (digits : string) : Z :=
  match digits with
  | EmptyString => 0
  | _ => decimal digits
  end.

(** Where the loop stands after a text with these tokens, entered with the
    pending digit run [d] and the sum [r]. *)
Definition resume (d : string) (r : Z) (tk : list (string * ascii) * string)
  : string * Z :=
  match fst tk with
  | [] => (d ++ snd tk, r)
  | (digits, unit) :: more =>
      (snd tk, r + term_value (d ++ digits, unit) + total more)
  end.

(** The sum of the terms, plus the trailing digit run as raw seconds. *)
Definition interval_value (s : string) : Z :=
  total (fst (tokens s)) + trailing_value (snd (tokens s)).

(** A digit run that [int] converts: at most [max_str_digits] long. *)
Definition fits (digits : string) : bool :=
  Z.of_nat (String.length digits) <=? max_str_digits.

(** The digit runs of the terms fit, the first one taken with the pending
    run [d] before it. *)
Definition terms_fit (d : string) (terms : list (string * ascii)) : bool :=
  match terms with
  | [] => true
  | (digits, _) :: more =>
      fits (d ++ digits) && forallb (fun t => fits (fst t)) more
  end.

(** Every digit run of the text fits. *)
Definition within_limit (s : string) : bool :=
  forallb (fun t => fits (fst t)) (fst (tokens s)) && fits (snd (tokens s)).

(** The digit run of a complete term, the term without its unit character,
    fits. *)
Definition term_fits (a : string) : bool :=
  Z.of_nat (String.length a) <=? max_str_digits + 1.

(** A run of [n] nines. *)
Fixpoint nines (n : nat) : string :=
  match n with
  | O => EmptyString
  | S n' => String "9" (nines n')
  end.

End IntervalParser.

(** ** [format_file_name] *)

Module FileName.

Definition slash : ascii := ascii_of_nat 47.
Definition backslash : ascii := ascii_of_nat 92.
Definition colon : ascii := ascii_of_nat 58.
Definition star : ascii := ascii_of_nat 42.
Definition question : ascii := ascii_of_nat 63.
Definition dquote : ascii := ascii_of_nat 34.
Definition bar : ascii := ascii_of_nat 124.
Definition less : ascii := ascii_of_nat 60.
Definition greater : ascii := ascii_of_nat 62.
Definition underscore : ascii := ascii_of_nat 95.

(** The characters of the literal iterated by the [for c in ...] loop, in
    its order: slash, backslash, colon, star, question mark, double quote,
    bar, less-than, greater-than. *)
Definition hostile : list ascii :=
  [slash; backslash; colon; star; question; dquote; bar; less; greater].

Definition format_file_name (file_name : string) : string :=
  fold_left (fun name c => replace c underscore name) hostile file_name.

(** The sanitizer as the design states it: each hostile character becomes
    an underscore, every other character stays. *)
Definition scrub (x : ascii) : ascii :=
  if existsb (Ascii.eqb x) hostile then underscore else x.

End FileName.

(** ** The host: file system and server interface *)

Module Host.

(** What the plugin asks of [pathlib], of the archive libraries and of the
    disk.  [Path] is the type of [pathlib.Path] values; the disk does not
    change while one function runs. *)
Class FileSystem (Path : Type) : Type := {
  path_eq_dec : forall p q : Path, {p = q} + {p <> q};  (* [p == q] *)
  mk_path : string -> Path;                  (* [Path(text)] *)
  path_str : Path -> string;                 (* [str(path)] *)
  joinpath : Path -> string -> Path;         (* [path / name] *)
  with_name : Path -> string -> Path;        (* [path.with_name(name)] *)
  is_file : Path -> bool;                    (* [path.is_file()] *)
  path_exists : Path -> bool;                (* [path.exists()] *)
  rglob : Path -> string -> list Path;       (* [list(base.rglob(pattern))],
                                                for a pattern [rglob] takes *)
  archive_add : Path -> option exn;          (* [f.add(file)], [f.write(file)]:
                                                [None] when the member is stored *)
  stat_size : Path -> outcome Z              (* [path.stat().st_size], a file
                                                size: below [2^63] *)
}.

(** A [CommandSource], by identity. *)
Definition source : Type := nat.

(** The lines the plugin sends.  The text is fixed by the source apart from
    the numbers shown. *)
Inductive line : Type :=
| LineRepeated                 (* "§c正在備份中，請勿重複輸入§r" *)
| LineStarted                  (* "§6備份中...請稍後§r" *)
| LineTimedOut                 (* "§c備份超時，暫停備份§r" *)
| LineFailed                   (* "§c備份時發生錯誤，暫停備份§r" *)
| LineElapsed                  (* "備份§a完成§r，耗時 ... 秒" *)
| LineSize (size : Z)          (* "共計 ..." *)
| LineProgress (all now : Z)   (* the progress bar of [send_now] *)
| LineNoPermission (file : string).   (* "備份 {file} 無權限" *)

Inductive event : Type :=
| Broadcast (l : line)         (* [server.broadcast(text)] *)
| Reply (src : source) (l : line)   (* [source.reply(text)] *)
| Execute (command : string)   (* [server.execute(command)] *)
| LogException (e : exn)       (* [server.logger.exception(e)] *)
| DoneCallback.                (* [done_callback()] *)

(** [Configure], the fields the modelled functions read.  The sign of
    [save_game_timeout] is all that matters here. *)
Record Configure : Type := {
  enabled : bool;
  backup_path : string;
  files_rules : list string;
  save_game_timeout : Z;
  zip_type : string
}.

End Host.

Import Host.

(** ** PathSelector: [parse_paths] *)

Module PathSelector.

Section Selector.

Context {Path : Type} {FS : FileSystem Path}.

(** [path in paths] *)
Fixpoint mem (path : Path) (paths : list Path) : bool :=
  match paths with
  | [] => false
  | p :: rest => if path_eq_dec p path then true else mem path rest
  end.

(** [paths.remove(path)]: the first occurrence goes.  The source calls it
    only under [if path in paths]. *)
Fixpoint remove (path : Path) (paths : list Path) : list Path :=
  match paths with
  | [] => []
  | p :: rest => if path_eq_dec p path then rest else p :: remove path rest
  end.

(** The body shared by both loops: what one [path] does to [paths]. *)
Definition visit (pass_path : bool) (paths : list Path) (path : Path)
  : list Path :=
  if pass_path then (if mem path paths then remove path paths else paths)
  else paths ++ [path].

(** One iteration of [for rule in rules]. *)
Definition apply_rule (base_path : Path) (paths : list Path) (rule : string)
  : list Path :=
  let pass_path := startswith rule "!" in
  let path := mk_path (tail rule) in
  if is_file path then visit pass_path paths path
  else
    fold_left (visit pass_path)
              (rglob base_path (if pass_path then tail rule else rule))
              paths.

Definition parse_paths (base_path : Path) (rules : list string) : list Path :=
  fold_left (apply_rule base_path) rules [].

(** The paths one rule visits, in order. *)
Definition matched (base_path : Path) (rule : string) : list Path :=
  if is_file (mk_path (tail rule)) then [mk_path (tail rule)]
  else rglob base_path (if startswith rule "!" then tail rule else rule).

Definition is_exclude (rule : string) : bool := startswith rule "!".
Definition is_include (rule : string) : bool := negb (startswith rule "!").

(** Everything the include rules of a list visit, in rule order. *)
Definition appended (base_path : Path) (rules : list string) : list Path :=
  List.concat (map (matched base_path) (filter is_include rules)).

End Selector.

(** [l] is [l'] with some elements left out. *)
Inductive subsequence {A : Type} : list A -> list A -> Prop :=
| sub_nil : subsequence [] []
| sub_skip (x : A) (l l' : list A) :
    subsequence l l' -> subsequence l (x :: l')
| sub_keep (x : A) (l l' : list A) :
    subsequence l l' -> subsequence (x :: l) (x :: l').

End PathSelector.

Import IntervalParser FileName PathSelector.

(** ** ArchiveBuilder: [Timer.package_zip] *)

Module ArchiveBuilder.

Inductive container : Type := TarGz | Tar | Zip.

(** The archive handle [f]: where it writes, what it holds, whether
    [f.close()] ran. *)
Record archive (Path : Type) : Type := mkArchive {
  target : Path;
  format : container;
  members : list Path;
  closed : bool
}.

Arguments mkArchive {Path}.
Arguments target {Path}.
Arguments format {Path}.
Arguments members {Path}.
Arguments closed {Path}.

(** A progress callback, by what a call [callback(all, now)] does: the
    events it causes, or the exception it raises. *)
Definition progress : Type := Z -> Z -> outcome (list event).

(** The state of the [for index, file in enumerate(files)] loop. *)
Record writer (Path : Type) : Type := mkWriter {
  stored : list Path;          (* members written so far *)
  called : list (Z * Z);       (* arguments of the callback calls so far *)
  sent : list event;
  failure : option exn         (* an exception that left the loop *)
}.

Arguments mkWriter {Path}.
Arguments stored {Path}.
Arguments called {Path}.
Arguments sent {Path}.
Arguments failure {Path}.

(** What one call of [package_zip] did. *)
Record build (Path : Type) : Type := mkBuild {
  value : outcome Path;        (* the returned path, or the exception *)
  file : archive Path;
  calls : list (Z * Z);
  events : list event
}.

Arguments mkBuild {Path}.
Arguments value {Path}.
Arguments file {Path}.
Arguments calls {Path}.
Arguments events {Path}.

(** The arguments of [n] callback calls in a row, the first for the file at
    position [index]: [(all, index + 1)], ..., [(all, index + n)]. *)
Definition progress_calls (all index : Z) (n : nat) : list (Z * Z) :=
  map (fun k => (all, index + Z.of_nat k)) (seq 1 n).

(** The callback returns on each of those calls. *)
Definition returns_on (cb : progress) (all index : Z) (n : nat) : Prop :=
  forall k, (1 <= k <= n)%nat ->
            exists evs, cb all (index + Z.of_nat k) = Returns evs.

Section Builder.

Context {Path : Type} {FS : FileSystem Path}.

(** [BASE_PATH = Path("")] *)
Definition BASE_PATH : Path := mk_path "".

Definition str_of_Z (n : Z) : string :=
  NilZero.string_of_int (Z.to_int n).

(** The [while path.exists()] loop.  [with_name] returns a new path and the
    source drops it: [path] is the same on every iteration.  [None] when the
    loop has not ended after [fuel] tests. *)
Fixpoint settle (fuel : nat) (base_filename zip_type : string)
  (path : Path) (index : Z) : option (Path * Z) :=
  match fuel with
  | O => None
  | S fuel' =>
      if path_exists path then
        let index := index + 1 in
        let _ := with_name path
                   (base_filename ++ "." ++ str_of_Z index ++ "." ++ zip_type) in
        settle fuel' base_filename zip_type path index
      else Some (path, index)
  end.

(** The [try] statement around [f.add(file)] / [f.write(file)].  [stored]
    lists the arguments of the calls that returned; for a directory a tar
    archive holds what is below it as well. *)
Definition attempt (file : Path) (w : writer Path) : writer Path :=
  match archive_add file with
  | None => mkWriter (stored w ++ [file]) (called w) (sent w) (failure w)
  | Some PermissionError =>
      mkWriter (stored w) (called w)
               (sent w ++ [Broadcast (LineNoPermission (path_str file))])
               (failure w)
  | Some e =>
      mkWriter (stored w) (called w) (sent w ++ [LogException e]) (failure w)
  end.

(** The loop over [enumerate(files)]; [index] is the position of the head
    of [files].  The callback is called outside the [try]: what it raises
    leaves the loop. *)
Fixpoint add_files (callback : option progress) (all_files index : Z)
  (files : list Path) (w : writer Path) : writer Path :=
  match files with
  | [] => w
  | file :: rest =>
      let w1 := attempt file w in
      match callback with
      | None => add_files callback all_files (index + 1) rest w1
      | Some cb =>
          let w2 := mkWriter (stored w1) (called w1 ++ [(all_files, index + 1)])
                             (sent w1) (failure w1) in
          match cb all_files (index + 1) with
          | Returns evs =>
              add_files callback all_files (index + 1) rest
                        (mkWriter (stored w2) (called w2) (sent w2 ++ evs)
                                  (failure w2))
          | Raises e => mkWriter (stored w2) (called w2) (sent w2) (Some e)
          end
      end
  end.

(** The files the archive accepts. *)
Definition writable (file : Path) : bool :=
  match archive_add file with
  | None => true
  | Some _ => false
  end.

Definition selected (config : Configure) : list Path :=
  filter (fun path => negb (endswith (path_str path) "session.lock"))
         (parse_paths BASE_PATH (files_rules config)).

Definition container_of (path : Path) : container :=
  if endswith (path_str path) ".tar.gz" then TarGz
  else if endswith (path_str path) ".tar" then Tar
  else Zip.

(** [package_zip(filename, callback)].  [None]: the [while] loop is still
    running after [fuel] tests.  Creating the directory and opening the
    archive are taken to succeed. *)
Definition package_zip (fuel : nat) (config : Configure) (filename : string)
  (callback : option progress) : option (build Path) :=
  let zip_path := mk_path (backup_path config) in
  let zip_type := zip_type config in
  let base_filename := format_file_name filename in
  let files := selected config in
  let all_files := Z.of_nat (List.length files) in
  match settle fuel base_filename zip_type
               (joinpath zip_path (base_filename ++ "." ++ zip_type)) 1 with
  | None => None
  | Some (path, _) =>
      let w := add_files callback all_files 0 files (mkWriter [] [] [] None) in
      Some
        match failure w with
        | Some e =>
            mkBuild (Raises e)
                    (mkArchive path (container_of path) (stored w) false)
                    (called w) (sent w)
        | None =>
            mkBuild (Returns path)
                    (mkArchive path (container_of path) (stored w) true)
                    (called w) (sent w)
        end
  end.

End Builder.

End ArchiveBuilder.

Import ArchiveBuilder.

(** ** BackupCoordinator: [Timer.create_backup] and [send_now] *)

Module BackupCoordinator.

(** The fields of [Timer] that [create_backup] reads and writes.
    [creating_backup] is the lock, [true] when locked. *)
Record Timer : Type := mkTimer {
  config : Configure;
  backup_ing : bool;
  saved_game_event : bool;
  creating_backup : bool
}.

(** How one call of [create_backup] ended: the timer it leaves, what it did
    to the host, and an exception that escaped it. *)
Record finish : Type := mkFinish {
  timer : Timer;
  trace : list event;
  uncaught : option exn
}.

(** [Timer.send(msg, source=..., broadcast=...)], [msg] given by its
    lines. *)
Definition send (msg : list line) (source : option source) (broadcast : bool)
  : list event :=
  flat_map (fun l =>
              if broadcast then [Broadcast l]
              else match source with
                   | Some src => [Reply src l]
                   | None => []
                   end) msg.

(** The closure [send_now(all, now)].  [int(all / 8)] truncates the float
    quotient, which is exact for the file counts met here (below 2^53);
    [%] is the floored remainder and raises on a zero divisor, before the
    [or] is looked at. *)
Definition send_now (all now : Z) : outcome (list event) :=
  let eighth := Z.quot all 8 in
  if eighth =? 0 then Raises ZeroDivisionError
  else if (now mod eighth =? 0) || (all =? now)
       then Returns (send [LineProgress all now] None true)
       else Returns [].

Definition set_backup_ing (self : Timer) (b : bool) : Timer :=
  mkTimer (config self) b (saved_game_event self) (creating_backup self).

Definition set_saved_game_event (self : Timer) (b : bool) : Timer :=
  mkTimer (config self) (backup_ing self) b (creating_backup self).

(** [creating_backup.acquire(blocking=False)]: takes a free lock and
    answers [True]; answers [False] and leaves a held lock held. *)
Definition acquire (self : Timer) : bool * Timer :=
  (negb (creating_backup self),
   mkTimer (config self) (backup_ing self) (saved_game_event self) true).

(** [creating_backup.release()]: [RuntimeError] on a lock nobody holds. *)
Definition release (self : Timer) : outcome Timer :=
  if creating_backup self
  then Returns (mkTimer (config self) (backup_ing self)
                        (saved_game_event self) false)
  else Raises RuntimeError.

(** The truth value of an optional [CommandSource]. *)
Definition given (source : option source) : bool :=
  match source with
  | Some _ => true
  | None => false
  end.

Definition truthy (s : option string) : option string :=
  match s with
  | Some EmptyString => None
  | other => other
  end.

Section Coordinator.

Context {Path : Type} {FS : FileSystem Path}.

(** The [try] body: the events it caused and the exception that ended it,
    if any.  [None] when [package_zip] does not return. *)
Definition attempt_backup (fuel : nat) (now_text : string) (self : Timer)
  (cmt : option string) : option (list event * option exn) :=
  let filename :=
    match truthy cmt with
    | Some comment => now_text ++ "_" ++ comment
    | None => now_text
    end in
  match package_zip fuel (config self) filename (Some send_now) with
  | None => None
  | Some b =>
      Some
        match value b with
        | Raises e => (events b, Some e)
        | Returns path =>
            match stat_size path with
            | Raises e => (events b, Some e)
            | Returns size =>
                ((events b
                  ++ send [LineElapsed; LineSize size] None true)%list,
                 None)
            end
        end
  end.

(** [create_backup(source, ctx, done_callback)], one call run to its end.
    [now_text] is the formatted wall-clock time, [cmt] is [ctx.get("cmt")],
    [done_callback] tells whether one was passed, and [ack] tells whether
    [on_message] sets the saved-game event while the call waits.  [None]:
    the call never ends (an endless wait, or [package_zip] out of
    [fuel]).  The call is taken alone: no other call of [create_backup]
    runs between its first and its last step. *)
Definition create_backup (fuel : nat) (now_text : string) (self : Timer)
  (source : option source) (cmt : option string) (done_callback : bool)
  (ack : bool) : option finish :=
  if backup_ing self && given source then
    Some (mkFinish self (send [LineRepeated] source false) None)
  else if negb (enabled (config self)) then
    Some (mkFinish self [] None)
  else
    let self := snd (acquire self) in
    let self := set_backup_ing self true in
    let trace := send [LineStarted] None true in
    let trace := (trace ++ [Execute "save-off"])%list in
    let trace := (trace ++ [Execute "save-all flush"])%list in
    let self := set_saved_game_event self false in
    let timeout := save_game_timeout (config self) in
    if negb ack then
      if timeout <? 0 then None
      else
        let trace := (trace ++ send [LineTimedOut] None true)%list in
        let self := set_backup_ing self false in
        Some (mkFinish self trace None)
    else
      let self := set_saved_game_event self true in
      match attempt_backup fuel now_text self cmt with
      | None => None
      | Some (body, raised) =>
          let trace := (trace ++ body)%list in
          let trace :=
            match raised with
            | Some e =>
                (trace ++ [LogException e] ++ send [LineFailed] None true)%list
            | None => trace
            end in
          (* [finally] *)
          let self := set_backup_ing self false in
          match release self with
          | Raises e => Some (mkFinish self trace (Some e))
          | Returns self =>
              let trace := (trace ++ [Execute "save-on"])%list in
              let trace :=
                if done_callback then (trace ++ [DoneCallback])%list
                else trace in
              Some (mkFinish self trace None)
          end
      end.

End Coordinator.

(** Number of times [command] was sent to the server console. *)
Definition executed (command : string) (trace : list event) : nat :=
  List.length
    (filter (fun ev => match ev with
                       | Execute c => String.eqb c command
                       | _ => false
                       end) trace).

Definition is_reply (ev : event) : bool :=
  match ev with Reply _ _ => true | _ => false end.

(** An event that is not a console command. *)
Definition silent (ev : event) : Prop :=
  match ev with
  | Execute _ => False
  | _ => True
  end.

End BackupCoordinator.

Import BackupCoordinator.

(** ** A small disk, for running the functions *)

Module Fixture.

(** The directory part of a path. *)
Fixpoint parent (p : string) : string :=
  match p with
  | EmptyString => EmptyString
  | String c rest =>
      if contains rest slash then String c (parent rest) else EmptyString
  end.

Definition listed (p : string) (l : list string) : bool :=
  existsb (String.eqb p) l.

Fixpoint lookup (pattern : string) (globs : list (string * list string))
  : list string :=
  match globs with
  | [] => []
  | (k, v) :: rest => if String.eqb k pattern then v else lookup pattern rest
  end.

(** A disk given by its regular files, its other entries, the answers of
    [rglob] from the working directory, and the files that cannot be
    read.  Paths are their own text. *)
Record disk : Type := mkDisk {
  files : list string;
  others : list string;
  globs : list (string * list string);
  unreadable : list string
}.

#[local] Instance disk_fs (d : disk) : FileSystem string := {
  path_eq_dec := string_dec;
  mk_path := fun text => text;
  path_str := fun p => p;
  joinpath := fun p name => p ++ "/" ++ name;
  with_name := fun p name => parent p ++ "/" ++ name;
  is_file := fun p => listed p (files d);
  path_exists := fun p => listed p (files d) || listed p (others d);
  rglob := fun _ pattern => lookup pattern (globs d);
  archive_add := fun p =>
    if listed p (unreadable d) then Some PermissionError else None;
  stat_size := fun _ => Returns 4096
}.

(** The tree of the design document's scenario. *)
Definition level_dat : string := "server/world/level.dat".
Definition latest_log : string := "server/logs/latest.log".

Definition server_tree : disk :=
  mkDisk [level_dat; latest_log]
         ["server"; "server/world"; "server/logs"; "permanent_backup"]
         [("server/**/*",
           ["server/logs"; latest_log; "server/world"; level_dat]);
          ("server/world/*", [level_dat]);
          ("server/logs/**", ["server/logs"; latest_log])]
         [].

(** The same tree after a backup named [2024-01-01_00-00-00.zip] was
    written. *)
Definition after_backup : disk :=
  mkDisk [level_dat; latest_log; "permanent_backup/2024-01-01_00-00-00.zip"]
         (others server_tree) (globs server_tree) [].

(** A tree of ten files under [data]. *)
Definition ten : list string :=
  ["data/0"; "data/1"; "data/2"; "data/3"; "data/4";
   "data/5"; "data/6"; "data/7"; "data/8"; "data/9"].

Definition ten_tree : disk :=
  mkDisk ten ["data"; "permanent_backup"] [("data/*", ten)] ["data/3"].

Definition default_config (rules : list string) : Configure :=
  {| enabled := true;
     backup_path := "permanent_backup";
     files_rules := rules;
     save_game_timeout := 5;
     zip_type := "zip" |}.

Definition idle (c : Configure) : Timer := mkTimer c false false false.
Definition busy (c : Configure) : Timer := mkTimer c true false true.

(** A callback that raises on every call. *)
Definition broken : progress := fun _ _ => Raises (OtherError 0).

(** A callback that returns without doing anything. *)
Definition quiet : progress := fun _ _ => Returns [].

End Fixture.

Import Fixture.

From Stdlib Require Import Sorted.

(** ** More of the interval parser's vocabulary *)

Module IntervalSyntax.

(** The characters the loop of [parse_interval] acts on: those [isdigit]
    accepts and the keys of [time_map]. *)
Definition relevant (c : ascii) : bool :=
  isdigit c || match time_map c with Some _ => true | None => false end.

(** The characters of [s] that satisfy [f], in order. *)
Fixpoint keep (f : ascii -> bool) (s : string) : string :=
  match s with
  | EmptyString => EmptyString
  | String c rest => if f c then String c (keep f rest) else keep f rest
  end.

(** A loop state the parser cannot leave in good order: an exception that is
    [ValueError], or a pending digit run that [int] refuses. *)
Definition stuck (o : outcome (string * Z)) : Prop :=
  match o with
  | Raises e => e = ValueError
  | Returns st => all_decimal (fst st) = false
  end.

End IntervalSyntax.

Import IntervalSyntax.

(** ** More of the archive builder's vocabulary *)

Module ArchiveReport.

Section Report.

Context {Path : Type} {FS : FileSystem Path}.

(** What the [try] statement of the file loop sends for one file: nothing
    when the member is stored, a broadcast on [PermissionError], a log
    record on any other exception. *)
Definition report (file : Path) : list event :=
  match archive_add file with
  | None => []
  | Some PermissionError => [Broadcast (LineNoPermission (path_str file))]
  | Some e => [LogException e]
  end.

(** The first value of [path] in [package_zip]:
    [zip_path / f"{base_filename}.{zip_type}"]. *)
Definition destination (config : Configure) (filename : string) : Path :=
  joinpath (mk_path (backup_path config))
           (format_file_name filename ++ "." ++ zip_type config).

End Report.

(** A progress bar line of [send_now]. *)
Definition is_progress (ev : event) : bool :=
  match ev with
  | Broadcast (LineProgress _ _) => true
  | _ => false
  end.

(** The test of [send_now], for a total of eight or more. *)
Definition emits (all now : Z) : bool :=
  (now mod (all / 8) =? 0) || (all =? now).

(** The progress lines of the calls [send_now(all, index + 1)], ...,
    [send_now(all, index + n)]. *)
Fixpoint lines_from (all index : Z) (n : nat) : list event :=
  match n with
  | O => []
  | S n' =>
      ((if emits all (index + 1)
        then [Broadcast (LineProgress all (index + 1))] else [])
       ++ lines_from all (index + 1) n')%list
  end.


End ArchiveReport.

Import ArchiveReport.

(** ** The patterns [rglob] refuses *)

Module Globbing.

(** [NotImplementedError], raised by [rglob] on a pattern that is not
    relative. *)
Definition NotImplementedError : exn := OtherError 1.

(** [Path.rglob] refuses some patterns whatever the disk holds: the
    exception [base.rglob(pattern)] raises before it yields a path.
    [None]: it yields the paths of [rglob base pattern]. *)
Class GlobErrors (Path : Type) : Type := {
  rglob_error : Path -> string -> option exn
}.

Section Outcome.

Context {Path : Type} {FS : FileSystem Path} {GE : GlobErrors Path}.

Definition rglob_outcome (base_path : Path) (pattern : string)
  : outcome (list Path) :=
  match rglob_error base_path pattern with
  | Some e => Raises e
  | None => Returns (rglob base_path pattern)
  end.

(** One iteration of [for rule in rules] of [parse_paths], with the
    exception of [rglob]: it is raised as the inner [for] starts, before a
    path is visited. *)
Definition apply_rule_outcome (base_path : Path) (paths : list Path)
  (rule : string) : outcome (list Path) :=
  let pass_path := startswith rule "!" in
  let path := mk_path (tail rule) in
  if is_file path then Returns (visit pass_path paths path)
  else
    bind (rglob_outcome base_path (if pass_path then tail rule else rule))
         (fun found => Returns (fold_left (visit pass_path) found paths)).

Fixpoint run_rules (base_path : Path) (rules : list string)
  (paths : list Path) : outcome (list Path) :=
  match rules with
  | [] => Returns paths
  | rule :: rest =>
      bind (apply_rule_outcome base_path paths rule)
           (run_rules base_path rest)
  end.

(** [parse_paths(base_path, rules)], returning or raising. *)
Definition parse_paths_outcome (base_path : Path) (rules : list string)
  : outcome (list Path) :=
  run_rules base_path rules [].


(** The list [files] of [package_zip], returning or raising. *)
Definition selected_outcome (config : Configure) : outcome (list Path) :=
  bind (parse_paths_outcome BASE_PATH (files_rules config))
       (fun paths =>
          Returns (filter (fun path =>
                             negb (endswith (path_str path) "session.lock"))
                          paths)).

End Outcome.

(** The entries of a zip archive: [ZipFile.write] stores an entry for its
    argument and for nothing else.  [None] for the tar containers, where
    [TarFile.add] stores a directory with what is below it. *)
Definition zip_contents {Path : Type} (a : archive Path)
  : option (list Path) :=
  match format a with
  | Zip => Some (members a)
  | _ => None
  end.

End Globbing.

Import Globbing.

(** ** Save acknowledgment: [Timer.on_message] and [on_info] *)

Module Acknowledge.

(** [Timer.on_message(content)].  [keywords] is
    [config.saved_world_keywords]; [content in keywords] compares whole
    texts. *)
Definition on_message (keywords : list string) (self : Timer)
  (content : string) : Timer :=
  if backup_ing self
     && negb (saved_game_event self)
     && existsb (String.eqb content) keywords
  then set_saved_game_event self true
  else self.

(** [on_info(server, info)].  [timer] is the module's global, [None] before
    [on_load]; [is_user] and [content] are the fields of [info], [content]
    being [None] or a text, and an empty text is false. *)
Definition on_info (keywords : list string) (timer : option Timer)
  (is_user : bool) (content : option string) : option Timer :=
  match timer, truthy content with
  | Some self, Some text =>
      if negb is_user then Some (on_message keywords self text) else timer
  | _, _ => timer
  end.




End Acknowledge.

Import Acknowledge.

(** ** The periodic loop: [Timer.loop] *)

Module Scheduler.

(** What one pass of the inner [while] sees: whether [_stop_event.wait(1)]
    answers [True], the [enabled] and [interval] fields of the
    configuration at that moment, the reading of [time.time()] in the test,
    and, for a pass that leaves the inner loop, the answer of
    [server.is_server_startup()] and the reading of [time.time()] stored in
    [last_backup_time].  Clock readings are numbers of seconds, taken as
    exact: the rounding of floating-point arithmetic is left out. *)
Record tick : Type := mkTick {
  stop_seen : bool;
  enabled_now : bool;
  interval_now : string;
  clock : Z;
  startup : bool;
  clock_at_trigger : Z
}.

Inductive status : Type :=
| Returned                      (* the [return] of the inner loop *)
| Crashed (e : exn)             (* an exception left [loop] *)
| Running.                      (* no pass left to look at *)

(** [loop] after some passes: how it stands, [last_backup_time], and the
    readings at which it announced a backup and called [create_backup]. *)
Record run : Type := mkRun {
  ending : status;
  last_backup_time : Z;
  started : list Z
}.

(** [Timer.loop], over the passes given.  [backup_interval] is read in the
    test of the inner loop, outside the [try]; sending the announcement and
    starting the thread of [create_backup] are taken to succeed. *)
Fixpoint loop (ticks : list tick) (last : Z) : run :=
  match ticks with
  | [] => mkRun Running last []
  | t :: rest =>
      if stop_seen t then mkRun Returned last []
      else if negb (enabled_now t) then loop rest last
      else
        match parse_interval (interval_now t) with
        | Raises e => mkRun (Crashed e) last []
        | Returns backup_interval =>
            if clock t - last >? backup_interval then
              if startup t then
                let last := clock_at_trigger t in
                let r := loop rest last in
                mkRun (ending r) (last_backup_time r) (last :: started r)
              else loop rest last
            else loop rest last
        end
  end.

End Scheduler.

Import Scheduler.

(** ** [convert_bytes] *)

Module Report.











End Report.

Import Report.

(** ** Two finished runs, for running the properties *)

Module FixtureRuns.

(** The run of [create_backup] over the four entries of [server_tree], its
    save acknowledged and no callback given. *)
Definition four_files_run : finish :=
  mkFinish (mkTimer (default_config ["server/**/*"]) false true false)
           [Broadcast LineStarted; Execute "save-off";
            Execute "save-all flush"; LogException ZeroDivisionError;
            Broadcast LineFailed; Execute "save-on"]
           None.


(** The components of a pattern, cut at each slash. *)
Fixpoint components (s cur : string) : list string :=
  match s with
  | EmptyString => [cur]
  | String c rest =>
      if Ascii.eqb c slash then cur :: components rest EmptyString
      else components rest (cur ++ String c EmptyString)
  end.

Fixpoint has_two_stars (s : string) : bool :=
  match s with
  | String a (String b _ as rest) =>
      (Ascii.eqb a star && Ascii.eqb b star) || has_two_stars rest
  | _ => false
  end.

(** The patterns [pathlib] refuses: one that starts at the root, and one
    with two stars inside a longer component. *)
#[local] Instance pathlib_errors : GlobErrors string := {
  rglob_error := fun _ pattern =>
    if startswith pattern slash then Some NotImplementedError
    else if existsb (fun c => has_two_stars c && negb (String.eqb c "**"))
                    (components pattern EmptyString)
         then Some ValueError
         else None
}.

(** Three passes of the loop with an interval of one hour. *)
Definition hourly : list tick :=
  [mkTick false true "1h" 3601 true 3602;
   mkTick false true "1h" 3700 true 3700;
   mkTick false true "1h" 7300 true 7301].

End FixtureRuns.

Import FixtureRuns.

(* ================================================================== *)
(** * Part II: properties *)
(* ================================================================== *)

(** Facts about all 256 characters, by enumeration. *)
Ltac every_char x :=
  destruct x as [[] [] [] [] [] [] [] []]; vm_compute; reflexivity.

(** A concrete list has no duplicates. *)
Ltac distinct :=
  repeat (constructor; [simpl; intuition discriminate|]); constructor.

(** ** [format_file_name] *)

Section FileNameFacts.

Lemma replace_map_chars (c r : ascii) (s : string) :
  replace c r s = map_chars (fun x => if Ascii.eqb x c then r else x) s.
Proof. induction s as [|x s IH]; simpl; [reflexivity | now rewrite IH]. Qed.

Lemma map_chars_compose (f g : ascii -> ascii) (s : string) :
  map_chars g (map_chars f s) = map_chars (fun x => g (f x)) s.
Proof. induction s as [|x s IH]; simpl; [reflexivity | now rewrite IH]. Qed.

Lemma map_chars_ext (f g : ascii -> ascii) (s : string) :
  (forall x, f x = g x) -> map_chars f s = map_chars g s.
Proof.
  intros E; induction s as [|x s IH]; simpl; [reflexivity|].
  now rewrite E, IH.
Qed.

Lemma contains_map_chars (f : ascii -> ascii) (c : ascii) (s : string) :
  (forall x, Ascii.eqb (f x) c = false) -> contains (map_chars f s) c = false.
Proof.
  intros E; induction s as [|x s IH]; simpl; [reflexivity|].
  now rewrite E, IH.
Qed.

Lemma scrub_chain (x : ascii) :
  fold_left (fun y c => if Ascii.eqb y c then underscore else y) hostile x
  = scrub x.
Proof. every_char x. Qed.

Lemma scrub_idempotent (x : ascii) : scrub (scrub x) = scrub x.
Proof. every_char x. Qed.

Lemma scrub_clean (x : ascii) :
  existsb (Ascii.eqb (scrub x)) hostile = false.
Proof. every_char x. Qed.

Lemma format_file_name_scrub (s : string) :
  format_file_name s = map_chars scrub s.
Proof.
  unfold format_file_name, hostile; simpl fold_left.
  rewrite !replace_map_chars, !map_chars_compose.
  apply map_chars_ext; intros x.
  now rewrite <- scrub_chain.
Qed.

(** C10.  The archive-name sanitizer is idempotent, its output holds none of
    the nine hostile characters (slash, backslash, colon, star, question
    mark, double quote, bar, less-than, greater-than), and it is the input
    with each of them replaced by an underscore. *)
Theorem format_file_name_idempotent_clean (s : string) :
  format_file_name (format_file_name s) = format_file_name s
  /\ existsb (contains (format_file_name s)) hostile = false
  /\ format_file_name s = map_chars scrub s.
Proof.
  rewrite !format_file_name_scrub, map_chars_compose.
  split; [|split].
  - apply map_chars_ext, scrub_idempotent.
  - apply not_true_is_false; intros H.
    apply existsb_exists in H as (c & Hc & E).
    rewrite contains_map_chars in E; [discriminate|].
    intros x. pose proof (scrub_clean x) as Hx.
    destruct (Ascii.eqb (scrub x) c) eqn:Ex; [|reflexivity].
    apply Ascii.eqb_eq in Ex; subst c.
    assert (existsb (Ascii.eqb (scrub x)) hostile = true) as Ht.
    { apply existsb_exists. exists (scrub x). split; [exact Hc|].
      apply Ascii.eqb_refl. }
    congruence.
  - reflexivity.
Qed.

End FileNameFacts.

(** ** IntervalParser *)

Section IntervalFacts.

Lemma isdecimal_isdigit (c : ascii) : isdecimal c = true -> isdigit c = true.
Proof. unfold isdigit; intros ->; reflexivity. Qed.

Lemma unit_facts (c : ascii) :
  match time_map c with
  | Some v => negb (isdigit c) && (0 <? v)
  | None => true
  end = true.
Proof. every_char c. Qed.

Lemma unit_not_digit (c : ascii) (v : Z) :
  time_map c = Some v -> isdigit c = false /\ isdecimal c = false /\ 0 < v.
Proof.
  intros E. pose proof (unit_facts c) as F. rewrite E in F.
  apply andb_prop in F as [F1 F2].
  apply negb_true_iff in F1. apply Z.ltb_lt in F2.
  repeat split; try assumption.
  destruct (isdecimal c) eqn:D; [|reflexivity].
  apply isdecimal_isdigit in D; congruence.
Qed.

Lemma digit_value_bounds (c : ascii) :
  isdecimal c = true -> 0 <= digit_value c <= 9.
Proof.
  unfold isdecimal, digit_value; intros H.
  apply andb_prop in H as [H1 H2].
  apply N.leb_le in H1, H2. lia.
Qed.

Lemma all_decimal_app (a b : string) :
  all_decimal (a ++ b) = all_decimal a && all_decimal b.
Proof.
  induction a as [|c a IH]; simpl; [reflexivity|].
  now rewrite IH, andb_assoc.
Qed.

Lemma append_nil_r (a : string) : a ++ "" = a.
Proof. induction a as [|c a IH]; simpl; [reflexivity | now rewrite IH]. Qed.

Lemma append_assoc (a b c : string) : (a ++ b) ++ c = a ++ (b ++ c).
Proof. induction a as [|x a IH]; simpl; [reflexivity | now rewrite IH]. Qed.

Lemma int_from_decimal (s : string) : forall acc,
  all_decimal s = true ->
  int_from acc s
  = Returns (fold_left (fun a c => 10 * a + digit_value c)
                       (list_ascii_of_string s) acc).
Proof.
  induction s as [|c s IH]; intros acc H; simpl in *; [reflexivity|].
  apply andb_prop in H as [Hc Hs]. rewrite Hc. now apply IH.
Qed.

Lemma decimal_from_nonneg (s : string) : forall acc,
  all_decimal s = true -> 0 <= acc ->
  0 <= fold_left (fun a c => 10 * a + digit_value c)
                 (list_ascii_of_string s) acc.
Proof.
  induction s as [|c s IH]; intros acc H Hacc; [assumption|].
  simpl all_decimal in H. apply andb_prop in H as [Hc Hs].
  cbn [list_ascii_of_string fold_left].
  apply IH; [assumption|].
  pose proof (digit_value_bounds c Hc). lia.
Qed.

Lemma multiplier_nonneg (d : string) : all_decimal d = true -> 0 <= multiplier d.
Proof.
  intros H. destruct d as [|c d]; [simpl; lia|].
  unfold multiplier, decimal. apply decimal_from_nonneg; [assumption | lia].
Qed.

Lemma fits_empty : fits EmptyString = true.
Proof. reflexivity. Qed.

(** [int(digit or 1)] on a run of decimal digits. *)
Lemma int_or_one (d : string) :
  all_decimal d = true ->
  match d with EmptyString => Returns 1 | _ => int d end
  = if fits d then Returns (multiplier d) else Raises ValueError.
Proof.
  intros H. destruct d as [|c d]; [reflexivity|].
  unfold int, fits. rewrite Z.ltb_antisym.
  destruct (Z.of_nat (String.length (String c d)) <=? max_str_digits);
    [|reflexivity].
  unfold multiplier, decimal. now apply int_from_decimal.
Qed.

Lemma add_decimal (d : string) (r : Z) (s : option ascii) :
  all_decimal d = true ->
  add d r s
  = if fits d
    then Returns (r + multiplier d * match s with
                                     | Some c => seconds c
                                     | None => 1
                                     end, EmptyString)
    else Raises ValueError.
Proof.
  intros H. unfold add. rewrite (int_or_one d H).
  now destruct (fits d).
Qed.

(** The loop passes a run of decimal digits into [digit]. *)
Lemma scan_digits (ds rest : string) : forall d r,
  all_decimal ds = true -> scan (ds ++ rest) d r = scan rest (d ++ ds) r.
Proof.
  induction ds as [|c ds IH]; intros d r H; simpl in *.
  - now rewrite append_nil_r.
  - apply andb_prop in H as [Hc Hs].
    rewrite (isdecimal_isdigit c Hc), IH by assumption.
    now rewrite append_assoc.
Qed.

(** On a unit character the loop closes the term, when [int] takes the
    digit run. *)
Lemma scan_unit (u : ascii) (v : Z) (rest d : string) (r : Z) :
  time_map u = Some v -> all_decimal d = true ->
  scan (String u rest) d r
  = if fits d then scan rest EmptyString (r + multiplier d * v)
    else Raises ValueError.
Proof.
  intros E H. destruct (unit_not_digit u v E) as (Hd & _ & _).
  simpl. rewrite Hd, E, (add_decimal d r (Some u) H).
  destruct (fits d); [|reflexivity]. simpl.
  unfold seconds. now rewrite E.
Qed.

Lemma scan_skip (c : ascii) (rest d : string) (r : Z) :
  isdigit c = false -> time_map c = None ->
  scan (String c rest) d r = scan rest d r.
Proof. intros Hd E. simpl. now rewrite Hd, E. Qed.

(** A complete term is a run of decimal digits and a unit character. *)
Lemma is_term_split (a : string) :
  is_term a = true ->
  exists ds u v, a = ds ++ String u EmptyString
                 /\ all_decimal ds = true /\ time_map u = Some v.
Proof.
  induction a as [|c a IH]; [discriminate|].
  destruct a as [|c' a'].
  - simpl. destruct (time_map c) as [v|] eqn:E; [|discriminate].
    intros _. exists EmptyString, c, v. auto.
  - intros H. change (isdecimal c && is_term (String c' a') = true) in H.
    apply andb_prop in H as [Hc Ha].
    destruct (IH Ha) as (ds & u & v & Eq & Hds & Hu).
    exists (String c ds), u, v. simpl. rewrite Eq, Hc, Hds. auto.
Qed.

Lemma length_append (a b : string) :
  String.length (a ++ b) = (String.length a + String.length b)%nat.
Proof. induction a as [|c a IH]; simpl; [reflexivity | now rewrite IH]. Qed.

Lemma term_fits_digits (ds : string) (u : ascii) :
  term_fits (ds ++ String u EmptyString) = fits ds.
Proof.
  unfold term_fits, fits. rewrite length_append. simpl String.length.
  destruct (Z.of_nat (String.length ds) <=? max_str_digits) eqn:E.
  - apply Z.leb_le in E. apply Z.leb_le. lia.
  - apply Z.leb_gt in E. apply Z.leb_gt. lia.
Qed.

Lemma scan_term (ds : string) (u : ascii) (v : Z) (rest : string) (r : Z) :
  all_decimal ds = true -> time_map u = Some v ->
  scan ((ds ++ String u EmptyString) ++ rest) EmptyString r
  = if fits ds then scan rest EmptyString (r + multiplier ds * v)
    else Raises ValueError.
Proof.
  intros Hds Hu. rewrite append_assoc. simpl append.
  rewrite (scan_digits ds _ _ _ Hds). simpl append.
  now apply scan_unit.
Qed.

Lemma parse_interval_term (ds : string) (u : ascii) (v : Z) :
  all_decimal ds = true -> time_map u = Some v ->
  parse_interval (ds ++ String u EmptyString)
  = if fits ds then Returns (multiplier ds * v) else Raises ValueError.
Proof.
  intros Hds Hu. unfold parse_interval.
  rewrite (scan_term ds u v " " 0 Hds Hu).
  now destruct (fits ds).
Qed.

Lemma tokens_space (s : string) : tokens (s ++ " ") = tokens s.
Proof.
  induction s as [|c s IH]; [reflexivity|].
  simpl. now rewrite IH.
Qed.

Lemma tokens_trailing_decimal (s : string) :
  all_decimal (snd (tokens s)) = true.
Proof.
  induction s as [|c s IH]; [reflexivity|].
  simpl. destruct (tokens s) as [terms tr]; simpl in IH.
  destruct (isdecimal c) eqn:D.
  - destruct terms as [|[ds u] more]; simpl; [now rewrite D | assumption].
  - destruct (time_map c); assumption.
Qed.

Lemma tokens_terms_decimal (s : string) :
  Forall (fun t => all_decimal (fst t) = true) (fst (tokens s)).
Proof.
  induction s as [|c s IH]; [constructor|].
  simpl. destruct (tokens s) as [terms tr]; simpl in IH.
  destruct (isdecimal c) eqn:D.
  - destruct terms as [|[ds u] more]; simpl; [constructor|].
    inversion IH as [|t ts Ht Hts]; subst. constructor; [|assumption].
    simpl in *. now rewrite D.
  - destruct (time_map c); simpl; [constructor|]; auto.
Qed.

Lemma seconds_positive (u : ascii) : 0 < seconds u.
Proof.
  unfold seconds. destruct (time_map u) as [v|] eqn:E; [|lia].
  now destruct (unit_not_digit u v E) as (_ & _ & H).
Qed.

Lemma total_nonneg (terms : list (string * ascii)) :
  Forall (fun t => all_decimal (fst t) = true) terms -> 0 <= total terms.
Proof.
  induction 1 as [|t ts Ht _ IH]; simpl; [lia|].
  unfold term_value.
  pose proof (multiplier_nonneg (fst t) Ht).
  pose proof (seconds_positive (snd t)). nia.
Qed.

Lemma terms_fit_nil (terms : list (string * ascii)) :
  terms_fit EmptyString terms = forallb (fun t => fits (fst t)) terms.
Proof. now destruct terms as [|[ds u] more]. Qed.

(** The loop computes what the tokens say, from any pending digit run, when
    [int] takes every digit run of the terms; it raises otherwise. *)
Lemma scan_tokens (s : string) : forall d r,
  plain_digits s = true -> all_decimal d = true ->
  scan s d r
  = if terms_fit d (fst (tokens s)) then Returns (resume d r (tokens s))
    else Raises ValueError.
Proof.
  induction s as [|c s IH]; intros d r Hs Hd.
  - unfold resume; simpl. now rewrite append_nil_r.
  - simpl plain_digits in Hs. apply andb_prop in Hs as [Hc Hs].
    cbn [tokens]. destruct (isdecimal c) eqn:D.
    + cbn [scan]. rewrite (isdecimal_isdigit c D).
      rewrite IH; [|assumption|].
      2:{ rewrite all_decimal_app, Hd. simpl. now rewrite D. }
      destruct (tokens s) as [terms tr].
      destruct terms as [|[ds u] more]; unfold resume, terms_fit;
        cbn [fst snd]; now rewrite append_assoc.
    + simpl in Hc. apply negb_true_iff in Hc.
      destruct (time_map c) as [v|] eqn:E.
      * rewrite (scan_unit c v s d r E Hd), IH by auto.
        rewrite terms_fit_nil.
        destruct (tokens s) as [terms tr]. cbn [fst terms_fit].
        rewrite append_nil_r.
        destruct (fits d); [|reflexivity]. cbn [andb].
        destruct (forallb (fun t => fits (fst t)) terms); [|reflexivity].
        assert (term_value (d ++ "", c) = multiplier d * v) as Tv.
        { unfold term_value, seconds; cbn [fst snd].
          now rewrite append_nil_r, E. }
        destruct terms as [|[ds u] more]; unfold resume; cbn [fst snd];
          rewrite Tv; unfold total; cbn [append fold_right];
          do 2 f_equal; lia.
      * rewrite (scan_skip c s d r Hc E), IH by assumption.
        now destruct (tokens s).
Qed.

Lemma plain_digits_space (s : string) :
  plain_digits (s ++ " ") = plain_digits s.
Proof.
  induction s as [|c s IH]; [reflexivity|].
  simpl. now rewrite IH.
Qed.

(** On a text whose digit characters are all decimal, the parser returns
    the value the grammar gives the text when [int] takes every digit run,
    and raises otherwise. *)
Lemma parse_interval_grammar (s : string) :
  plain_digits s = true ->
  parse_interval s
  = if within_limit s then Returns (interval_value s) else Raises ValueError.
Proof.
  intros Hs. unfold parse_interval, interval_value, within_limit.
  rewrite <- plain_digits_space in Hs.
  rewrite (scan_tokens _ "" 0 Hs eq_refl), tokens_space, terms_fit_nil.
  pose proof (tokens_trailing_decimal s) as Htr.
  destruct (tokens s) as [terms tr]; cbn [fst snd] in *.
  destruct (forallb (fun t => fits (fst t)) terms); [|reflexivity].
  cbn [andb bind].
  destruct terms as [|[ds u] more]; unfold resume; cbn [fst snd append].
  - destruct tr as [|c tr]; [reflexivity|].
    rewrite (add_decimal _ 0 None Htr).
    destruct (fits (String c tr)); [|reflexivity]. cbn [bind fst].
    f_equal. unfold multiplier, trailing_value, total. cbn [fold_right]. lia.
  - destruct tr as [|c tr].
    + rewrite fits_empty. f_equal. unfold trailing_value, total.
      cbn [fold_right]. lia.
    + rewrite (add_decimal _ _ None Htr).
      destruct (fits (String c tr)); [|reflexivity]. cbn [bind fst].
      f_equal. unfold multiplier, trailing_value, total. cbn [fold_right].
      lia.
Qed.

(** The examples of the design document. *)
Lemma parse_interval_examples :
  parse_interval "2d" = Returns 172800
  /\ parse_interval "1h30m" = Returns 5400
  /\ parse_interval "d" = Returns 86400
  /\ parse_interval "" = Returns 0.
Proof. repeat split; reflexivity. Qed.

(** C8.  The parser does not always return: [isdigit] takes the superscript
    two (code point 178) for a digit and [int] refuses it, so for the text
    made of that one character, alone or before a unit, the call raises
    [ValueError], while the grammar examples evaluate as stated. *)
Theorem parse_interval_superscript_raises :
  parse_interval (String (ascii_of_nat 178) "") = Raises ValueError
  /\ parse_interval (String (ascii_of_nat 178) "d") = Raises ValueError
  /\ parse_interval "2d" = Returns 172800.
Proof. repeat split; reflexivity. Qed.

(** C9, as the code has it.  For complete terms [a] and [b], the parser
    answers on [a + b] as the sum of its answers on [a] and on [b] does,
    [a] first: when the digit run of each term is at most 4300 digits long,
    it returns on [a], on [b] and on [a + b], and its value on [a + b] is
    the sum of its values on [a] and on [b]; a longer digit run makes [int]
    raise [ValueError], on the term and on the concatenation alike. *)
Theorem parse_interval_additive_within_limit (a b : string) :
  is_term a = true -> is_term b = true ->
  parse_interval (a ++ b)
  = bind (parse_interval a)
         (fun x => bind (parse_interval b) (fun y => Returns (x + y)))
  /\ (term_fits a = true -> term_fits b = true ->
      exists x y,
        parse_interval a = Returns x
        /\ parse_interval b = Returns y
        /\ parse_interval (a ++ b) = Returns (x + y)).
Proof.
  intros Ha Hb.
  destruct (is_term_split a Ha) as (da & ua & va & -> & Hda & Hua).
  destruct (is_term_split b Hb) as (db & ub & vb & -> & Hdb & Hub).
  rewrite !term_fits_digits.
  rewrite (parse_interval_term da ua va Hda Hua).
  rewrite (parse_interval_term db ub vb Hdb Hub).
  assert (parse_interval ((da ++ String ua "") ++ db ++ String ub "")
          = if fits da
            then if fits db
                 then Returns (multiplier da * va + multiplier db * vb)
                 else Raises ValueError
            else Raises ValueError) as E.
  { unfold parse_interval.
    rewrite append_assoc, (scan_term da ua va _ 0 Hda Hua).
    destruct (fits da); [|reflexivity].
    rewrite (scan_term db ub vb " " _ Hdb Hub).
    now destruct (fits db). }
  rewrite E. split.
  - now destruct (fits da), (fits db).
  - intros -> ->. eauto.
Qed.

Lemma parse_interval_additive_within_limit_witness :
  parse_interval ("1h" ++ "30m")
  = bind (parse_interval "1h")
         (fun x => bind (parse_interval "30m") (fun y => Returns (x + y)))
  /\ (term_fits "1h" = true -> term_fits "30m" = true ->
      exists x y,
        parse_interval "1h" = Returns x
        /\ parse_interval "30m" = Returns y
        /\ parse_interval ("1h" ++ "30m") = Returns (x + y)).
Proof.
  apply (parse_interval_additive_within_limit "1h" "30m"); reflexivity.
Defined.

(** C9 as stated fails: on the complete term made of 4301 nines and [s],
    [int] refuses the digit run and the parser raises instead of
    returning. *)
Lemma parse_interval_additive_counterexample :
  ~ (forall a b : string,
       is_term a = true -> is_term b = true ->
       exists x y,
         parse_interval a = Returns x
         /\ parse_interval b = Returns y
         /\ parse_interval (a ++ b) = Returns (x + y)).
Proof.
  intros H.
  destruct (H (nines 4301 ++ "s") "s") as (x & y & Ea & _);
    [vm_compute; reflexivity | reflexivity |].
  rewrite (parse_interval_term (nines 4301) "s" 1) in Ea;
    [|vm_compute; reflexivity | reflexivity].
  assert (fits (nines 4301) = false) as F by (vm_compute; reflexivity).
  rewrite F in Ea. discriminate Ea.
Qed.

End IntervalFacts.

(** ** The throttled progress callback *)

Section ProgressFacts.

(** From eight files on the callback returns, and it sends a line exactly
    when [now] is a multiple of the eighth of [all], rounded down, or
    [now] is [all]. *)
Lemma send_now_from_eight (all now : Z) :
  8 <= all ->
  send_now all now
  = Returns (if (now mod (all / 8) =? 0) || (all =? now)
             then [Broadcast (LineProgress all now)] else []).
Proof.
  intros H. unfold send_now.
  rewrite Z.quot_div_nonneg by lia.
  assert (1 <= all / 8) as Hq by (apply Z.div_le_lower_bound; lia).
  destruct (all / 8 =? 0) eqn:E; [apply Z.eqb_eq in E; lia|].
  now destruct ((now mod (all / 8) =? 0) || (all =? now)).
Qed.

(** C7.  With fewer than eight files the eighth of the total is zero and
    the remainder by it raises [ZeroDivisionError], whatever [done] is. *)
Theorem send_now_below_eight_raises (total done : Z) :
  1 <= total < 8 -> send_now total done = Raises ZeroDivisionError.
Proof.
  intros H. unfold send_now.
  now rewrite Z.quot_small by lia.
Qed.

Lemma send_now_below_eight_raises_witness :
  1 <= 5 < 8 /\ send_now 5 5 = Raises ZeroDivisionError.
Proof. split; [lia | apply (send_now_below_eight_raises 5 5); lia]. Defined.

End ProgressFacts.

(** ** ArchiveBuilder: the destination *)

Section TargetFacts.

Context {Path : Type} {FS : FileSystem Path}.

Lemma settle_free (fuel : nat) (base zt : string) (path : Path) (index : Z) :
  path_exists path = false ->
  settle (S fuel) base zt path index = Some (path, index).
Proof. intros H; simpl; now rewrite H. Qed.

(** A destination that exists keeps the loop running: the test is made on
    the same path again. *)
Lemma settle_stuck (base zt : string) (path : Path) :
  path_exists path = true ->
  forall fuel index, settle fuel base zt path index = None.
Proof.
  intros H fuel; induction fuel as [|fuel IH]; intros index; simpl.
  - reflexivity.
  - rewrite H. apply IH.
Qed.

(** C5.  When the first destination, the backup directory joined with
    [base.ext], exists, [package_zip] does not return and writes nothing:
    however many times the loop tests, it is still testing that path. *)
Theorem package_zip_existing_target_loops
  (config : Configure) (filename : string) (callback : option progress) :
  path_exists (joinpath (mk_path (backup_path config))
                        (format_file_name filename ++ "."
                         ++ zip_type config)) = true ->
  forall fuel, package_zip fuel config filename callback = None.
Proof.
  intros H fuel. unfold package_zip.
  now rewrite (settle_stuck _ _ _ H).
Qed.

End TargetFacts.

Lemma package_zip_existing_target_loops_witness :
  @path_exists _ (disk_fs after_backup)
               "permanent_backup/2024-01-01_00-00-00.zip" = true
  /\ package_zip (FS := disk_fs after_backup) 1000
                 (default_config ["server/**/*"]) "2024-01-01_00-00-00" None
     = None.
Proof.
  split; [reflexivity|].
  apply (package_zip_existing_target_loops (FS := disk_fs after_backup)).
  reflexivity.
Defined.

(** ** BackupCoordinator *)

Section CoordinatorFacts.

Context {Path : Type} {FS : FileSystem Path}.



Lemma send_broadcast_silent (msg : list line) (source : option source) :
  Forall silent (send msg source true).
Proof.
  unfold send. induction msg as [|l msg IH]; simpl; constructor;
    simpl; auto.
Qed.

Lemma send_now_silent (all now : Z) (evs : list event) :
  send_now all now = Returns evs -> Forall silent evs.
Proof.
  unfold send_now. destruct (Z.quot all 8 =? 0); [discriminate|].
  destruct ((now mod Z.quot all 8 =? 0) || (all =? now));
    intros E; injection E as <-; repeat constructor.
Qed.

Lemma attempt_silent (file : Path) (w : writer Path) :
  Forall silent (sent w) -> Forall silent (sent (attempt file w)).
Proof.
  intros H. unfold attempt.
  destruct (archive_add file) as [[]|]; simpl; try assumption;
    apply Forall_app; split; try assumption; constructor; simpl; auto.
Qed.

(** Nothing the file loop does under [send_now] is a console command. *)
Lemma add_files_silent (all : Z) (files : list Path) :
  forall index w,
    Forall silent (sent w) ->
    Forall silent (sent (add_files (Some send_now) all index files w)).
Proof.
  induction files as [|file rest IH]; intros index w H; simpl; [assumption|].
  pose proof (attempt_silent file w H) as H1.
  destruct (send_now all (index + 1)) as [evs|e] eqn:E; simpl.
  - apply IH. simpl. apply Forall_app; split; [assumption|].
    now apply send_now_silent in E.
  - assumption.
Qed.

Lemma attempt_backup_silent (fuel : nat) (now_text : string) (self : Timer)
  (cmt : option string) (body : list event) (raised : option exn) :
  attempt_backup fuel now_text self cmt = Some (body, raised) ->
  Forall silent body.
Proof.
  unfold attempt_backup, package_zip.
  destruct (settle _ _ _ _ _) as [[path index]|]; [|discriminate].
  set (w := add_files _ _ _ _ _).
  assert (Forall silent (sent w)) as Hw.
  { apply add_files_silent. constructor. }
  destruct (failure w) as [e|]; cbn [value events].
  - intros E; inversion E; subst; assumption.
  - destruct (stat_size path) as [size|e]; intros E; inversion E; subst.
    + apply Forall_app; split; [assumption | repeat constructor].
    + assumption.
Qed.

(** A manual call while [_backup_ing] is set answers the requester and
    changes nothing. *)
Lemma create_backup_manual_rejected (fuel : nat) (now_text : string)
  (self : Timer) (src : source) (cmt : option string)
  (done_callback ack : bool) :
  backup_ing self = true ->
  create_backup fuel now_text self (Some src) cmt done_callback ack
  = Some (mkFinish self [Reply src LineRepeated] None).
Proof. intros H. unfold create_backup. rewrite H. reflexivity. Qed.


(** C1.  On the save-acknowledgment timeout the run ends without asking the
    host to resume saving and with the lock still held: it has sent
    [save-off] once and [save-on] never. *)
Theorem create_backup_timeout_skips_cleanup (fuel : nat) (now_text : string)
  (self : Timer) (source : option source) (cmt : option string)
  (done_callback : bool) :
  enabled (config self) = true ->
  backup_ing self && given source = false ->
  0 <= save_game_timeout (config self) ->
  exists f,
    create_backup fuel now_text self source cmt done_callback false = Some f
    /\ executed "save-off" (trace f) = 1%nat
    /\ executed "save-on" (trace f) = 0%nat
    /\ creating_backup (timer f) = true
    /\ backup_ing (timer f) = false.
Proof.
  intros He Hb Ht. unfold create_backup. rewrite Hb, He. cbn [negb].
  cbn [acquire snd set_backup_ing set_saved_game_event config].
  destruct (save_game_timeout (config self) <? 0) eqn:E;
    [apply Z.ltb_lt in E; lia|].
  eexists; split; [reflexivity|]. repeat split.
Qed.

(** C2.  A scheduled call (no command source) made while a run is in
    progress is not turned away: it sends [save-off], answers nobody, and on
    its timeout clears the [_backup_ing] flag of the run in progress. *)
Theorem create_backup_scheduled_not_rejected (fuel : nat) (now_text : string)
  (self : Timer) (cmt : option string) (done_callback : bool) :
  backup_ing self = true ->
  creating_backup self = true ->
  enabled (config self) = true ->
  0 <= save_game_timeout (config self) ->
  exists f,
    create_backup fuel now_text self None cmt done_callback false = Some f
    /\ executed "save-off" (trace f) = 1%nat
    /\ existsb is_reply (trace f) = false
    /\ backup_ing (timer f) = false
    /\ timer f <> self.
Proof.
  intros Hb Hl He Ht. unfold create_backup. rewrite Hb, He. cbn [given andb negb].
  cbn [acquire snd set_backup_ing set_saved_game_event config].
  destruct (save_game_timeout (config self) <? 0) eqn:E;
    [apply Z.ltb_lt in E; lia|].
  eexists; split; [reflexivity|]. repeat split.
  cbn [timer]. intros K. rewrite <- K in Hb. discriminate Hb.
Qed.

End CoordinatorFacts.

Lemma create_backup_timeout_skips_cleanup_witness :
  exists f,
    create_backup (FS := disk_fs server_tree) 1 "2024-01-01_00-00-00"
                  (idle (default_config ["server/**/*"]))
                  (Some 7%nat) None false false = Some f
    /\ executed "save-off" (trace f) = 1%nat
    /\ executed "save-on" (trace f) = 0%nat
    /\ creating_backup (timer f) = true
    /\ backup_ing (timer f) = false.
Proof.
  apply (create_backup_timeout_skips_cleanup (FS := disk_fs server_tree));
    [reflexivity | reflexivity | simpl; lia].
Defined.

Lemma create_backup_scheduled_not_rejected_witness :
  exists f,
    create_backup (FS := disk_fs ten_tree) 1 "2024-01-01_00-00-00"
                  (busy (default_config ["data/*"])) None None true false
    = Some f
    /\ executed "save-off" (trace f) = 1%nat
    /\ existsb is_reply (trace f) = false
    /\ backup_ing (timer f) = false
    /\ timer f <> busy (default_config ["data/*"]).
Proof.
  apply (create_backup_scheduled_not_rejected (FS := disk_fs ten_tree));
    [reflexivity | reflexivity | reflexivity | simpl; lia].
Defined.

(** ** PathSelector *)

Section SelectorFacts.

Local Open Scope list_scope.

Context {Path : Type} {FS : FileSystem Path}.

Variable base : Path.

Abbreviation count := (count_occ path_eq_dec).

Lemma mem_count (p : Path) (l : list Path) :
  mem p l = false -> count l p = 0%nat.
Proof.
  induction l as [|x l IH]; simpl; [reflexivity|].
  destruct (path_eq_dec x p); [discriminate | exact IH].
Qed.

(** [remove] takes one occurrence of its argument and no other path. *)
Lemma count_remove (q p : Path) (l : list Path) :
  count (remove q l) p = (count l p - count [q] p)%nat.
Proof.
  induction l as [|x l IH]; [reflexivity|].
  cbn [remove]. destruct (path_eq_dec x q) as [->|Nq].
  - cbn [count_occ]. destruct (path_eq_dec q p); lia.
  - cbn [count_occ] in *. destruct (path_eq_dec x p) as [->|Np].
    + destruct (path_eq_dec q p) as [->|_]; [contradiction|]. lia.
    + exact IH.
Qed.

Lemma count_visit (pass_path : bool) (l : list Path) (q p : Path) :
  count (visit pass_path l q) p
  = if pass_path then (count l p - count [q] p)%nat
    else (count l p + count [q] p)%nat.
Proof.
  unfold visit. destruct pass_path.
  - destruct (mem q l) eqn:M; [apply count_remove|].
    cbn [count_occ]. destruct (path_eq_dec q p) as [->|_]; [|lia].
    rewrite (mem_count _ _ M). reflexivity.
  - apply count_occ_app.
Qed.

Lemma count_visits (pass_path : bool) (qs : list Path) (p : Path) :
  forall l,
    count (fold_left (visit pass_path) qs l) p
    = if pass_path then (count l p - count qs p)%nat
      else (count l p + count qs p)%nat.
Proof.
  induction qs as [|q qs IH]; intros l; cbn [fold_left].
  - destruct pass_path; cbn [count_occ]; lia.
  - rewrite IH, count_visit.
    change (q :: qs) with ([q] ++ qs)%list. rewrite count_occ_app.
    destruct pass_path; lia.
Qed.

(** Both branches of a rule walk the paths of [matched]. *)
Lemma apply_rule_visits (l : list Path) (rule : string) :
  apply_rule base l rule
  = fold_left (visit (startswith rule "!")) (matched base rule) l.
Proof.
  unfold apply_rule, matched.
  now destruct (is_file (mk_path (tail rule))).
Qed.

Lemma count_apply_rule (l : list Path) (rule : string) (p : Path) :
  count (apply_rule base l rule) p
  = if is_exclude rule then (count l p - count (matched base rule) p)%nat
    else (count l p + count (matched base rule) p)%nat.
Proof. rewrite apply_rule_visits. apply count_visits. Qed.

(** Rules that do not include [p] cannot bring it back. *)
Lemma count_rules_without (p : Path) (rules : list string) :
  (forall r, In r rules -> is_include r = true -> ~ In p (matched base r)) ->
  forall l, count l p = 0%nat ->
            count (fold_left (apply_rule base) rules l) p = 0%nat.
Proof.
  induction rules as [|r rules IH]; intros H l Hl; cbn [fold_left];
    [assumption|].
  apply IH; [intros r' Hr'; apply H; now right|].
  rewrite count_apply_rule. unfold is_exclude.
  destruct (startswith r "!") eqn:E; [lia|].
  assert (count (matched base r) p = 0%nat) as Z0.
  { apply count_occ_not_In, H; [now left|]. unfold is_include. now rewrite E. }
  lia.
Qed.

Lemma subsequence_refl {A : Type} (l : list A) : subsequence l l.
Proof. induction l; constructor; assumption. Qed.

Lemma subsequence_app {A : Type} (l l' qs : list A) :
  subsequence l l' -> subsequence (l ++ qs) (l' ++ qs).
Proof.
  induction 1; simpl; try (constructor; assumption).
  apply subsequence_refl.
Qed.

Lemma subsequence_In {A : Type} (l l' : list A) (x : A) :
  subsequence l l' -> In x l -> In x l'.
Proof.
  induction 1 as [|y l l' _ IH|y l l' _ IH]; simpl; intuition.
Qed.

Lemma subsequence_NoDup {A : Type} (l l' : list A) :
  subsequence l l' -> NoDup l' -> NoDup l.
Proof.
  induction 1 as [|y l l' S IH|y l l' S IH]; intros N.
  - constructor.
  - inversion N; subst; auto.
  - inversion N as [|? ? Hy N']; subst. constructor; [|auto].
    intros Hin. apply Hy. eapply subsequence_In; eassumption.
Qed.

Lemma subsequence_remove (q : Path) (l l' : list Path) :
  subsequence l l' -> subsequence (remove q l) l'.
Proof.
  induction 1 as [|y l l' S IH|y l l' S IH]; cbn [remove].
  - constructor.
  - now constructor.
  - destruct (path_eq_dec y q); now constructor.
Qed.

Lemma subsequence_discard (qs : list Path) : forall l l',
  subsequence l l' -> subsequence (fold_left (visit true) qs l) l'.
Proof.
  induction qs as [|q qs IH]; intros l l' S; cbn [fold_left]; [assumption|].
  apply IH. unfold visit.
  destruct (mem q l); [now apply subsequence_remove | assumption].
Qed.

Lemma visits_include (qs : list Path) : forall l,
  fold_left (visit false) qs l = l ++ qs.
Proof.
  induction qs as [|q qs IH]; intros l; cbn [fold_left].
  - now rewrite app_nil_r.
  - rewrite IH. unfold visit. now rewrite <- app_assoc.
Qed.

Lemma appended_snoc (rules : list string) (rule : string) :
  appended base (rules ++ [rule])
  = appended base rules
    ++ (if is_include rule then matched base rule else []).
Proof.
  unfold appended. rewrite filter_app, map_app, concat_app.
  cbn [filter]. destruct (is_include rule); cbn [map List.concat];
    now rewrite ?app_nil_r.
Qed.

(** The running list is always drawn, in order, from what the include
    rules visited. *)
Lemma parse_paths_subsequence (rules : list string) :
  subsequence (parse_paths base rules) (appended base rules).
Proof.
  unfold parse_paths.
  induction rules as [|rule rules IH] using rev_ind; [constructor|].
  rewrite fold_left_app, appended_snoc. cbn [fold_left].
  rewrite apply_rule_visits. unfold is_include.
  destruct (startswith rule "!"); cbn [negb].
  - rewrite app_nil_r. now apply subsequence_discard.
  - rewrite visits_include. now apply subsequence_app.
Qed.

(** C4, as the code has it.  An include rule appends what it visits at the
    end of the list without looking for it there.  When the include rules
    of the list, taken together in rule order, visit no path twice, the
    list returned has no duplicates and keeps the paths in the order in
    which they were visited. *)
Theorem parse_paths_no_duplicates (rules : list string) :
  NoDup (appended base rules) ->
  NoDup (parse_paths base rules)
  /\ subsequence (parse_paths base rules) (appended base rules)
  /\ (forall rule, is_include rule = true ->
        parse_paths base (rules ++ [rule])
        = parse_paths base rules ++ matched base rule).
Proof.
  intros N. pose proof (parse_paths_subsequence rules) as S.
  split; [eapply subsequence_NoDup; eassumption|].
  split; [assumption|].
  intros rule Hr. unfold parse_paths. rewrite fold_left_app.
  cbn [fold_left]. rewrite apply_rule_visits.
  unfold is_include in Hr. apply negb_true_iff in Hr. rewrite Hr.
  apply visits_include.
Qed.

(** C3, as the code has it.  An exclude rule takes one occurrence of a path
    out of the list for each time it visits the path.  A path the exclude
    rule at position [j] visits is absent from the list returned when the
    list held it at most once as rule [j] was reached and no include rule
    after [j] visits it. *)
Theorem parse_paths_exclude_wins
  (before : list string) (rule_j : string) (after : list string) (p : Path) :
  is_exclude rule_j = true ->
  In p (matched base rule_j) ->
  (count (parse_paths base before) p <= 1)%nat ->
  (forall r, In r after -> is_include r = true -> ~ In p (matched base r)) ->
  ~ In p (parse_paths base (before ++ rule_j :: after)).
Proof.
  intros Hj Hp Hc Hafter.
  apply (count_occ_not_In path_eq_dec).
  unfold parse_paths. rewrite fold_left_app. cbn [fold_left].
  apply count_rules_without; [assumption|].
  rewrite count_apply_rule, Hj.
  apply (count_occ_In path_eq_dec) in Hp.
  unfold parse_paths in Hc. lia.
Qed.

End SelectorFacts.

Lemma parse_paths_no_duplicates_witness :
  NoDup (parse_paths (FS := disk_fs server_tree) ""
                     ["server/**/*"; "!server/logs/**"])
  /\ subsequence
       (parse_paths (FS := disk_fs server_tree) ""
                    ["server/**/*"; "!server/logs/**"])
       (appended (FS := disk_fs server_tree) ""
                 ["server/**/*"; "!server/logs/**"])
  /\ (forall rule, is_include rule = true ->
        parse_paths (FS := disk_fs server_tree) ""
                    (["server/**/*"; "!server/logs/**"] ++ [rule])
        = (parse_paths (FS := disk_fs server_tree) ""
                       ["server/**/*"; "!server/logs/**"]
           ++ matched (FS := disk_fs server_tree) "" rule)%list).
Proof.
  apply (parse_paths_no_duplicates (FS := disk_fs server_tree)).
  vm_compute. distinct.
Defined.

(** C4 as stated fails: two include rules that match the same file leave it
    twice in the list. *)
Lemma parse_paths_duplicates_counterexample :
  ~ (forall rules : list string,
       NoDup (parse_paths (FS := disk_fs server_tree) "" rules)).
Proof.
  intros H. specialize (H ["server/**/*"; "server/world/*"]).
  rewrite (NoDup_count_occ string_dec) in H.
  specialize (H level_dat). vm_compute in H. lia.
Qed.

Lemma parse_paths_exclude_wins_witness :
  ~ In latest_log
       (parse_paths (FS := disk_fs server_tree) ""
                    (["server/**/*"] ++ "!server/logs/**" :: [])).
Proof.
  apply (parse_paths_exclude_wins (FS := disk_fs server_tree)).
  - reflexivity.
  - vm_compute. auto.
  - vm_compute. lia.
  - intros r [].
Defined.

(** C3 as stated fails: a file two include rules matched stays in the list
    after a later exclude rule matched it. *)
Lemma parse_paths_exclude_counterexample :
  ~ (forall (rules : list string) (i j : nat) (rule_i rule_j p : string),
       (i < j)%nat ->
       nth_error rules i = Some rule_i ->
       nth_error rules j = Some rule_j ->
       is_include rule_i = true ->
       In p (matched (FS := disk_fs server_tree) "" rule_i) ->
       is_exclude rule_j = true ->
       In p (matched (FS := disk_fs server_tree) "" rule_j) ->
       ~ In p (parse_paths (FS := disk_fs server_tree) "" rules)).
Proof.
  intros H.
  apply (H ["server/**/*"; "server/world/*"; "!server/world/level.dat"]
           0%nat 2%nat "server/**/*" "!server/world/level.dat" level_dat);
    try reflexivity; try lia; vm_compute; auto 10.
Qed.

(** ** ArchiveBuilder: the file loop *)

Section BuilderFacts.

Local Open Scope list_scope.

Context {Path : Type} {FS : FileSystem Path}.

Lemma attempt_fields (file : Path) (w : writer Path) :
  stored (attempt file w)
  = stored w ++ (if writable file then [file] else [])
  /\ called (attempt file w) = called w
  /\ failure (attempt file w) = failure w.
Proof.
  unfold attempt, writable.
  destruct (archive_add file) as [[]|]; cbn [stored called failure];
    rewrite ?app_nil_r; auto.
Qed.

Lemma progress_calls_succ (all index : Z) (n : nat) :
  progress_calls all index (S n)
  = (all, index + 1) :: progress_calls all (index + 1) n.
Proof.
  unfold progress_calls. cbn [seq map]. f_equal.
  rewrite <- seq_shift, map_map. apply map_ext; intros k.
  f_equal. lia.
Qed.

(** Without a callback every file is tried and nothing leaves the loop. *)
Lemma add_files_without (all : Z) (files : list Path) : forall index w,
  let w' := add_files None all index files w in
  stored w' = stored w ++ filter writable files
  /\ called w' = called w
  /\ failure w' = failure w.
Proof.
  induction files as [|file rest IH]; intros index w; cbn [add_files filter].
  - rewrite app_nil_r. auto.
  - destruct (IH (index + 1) (attempt file w)) as (S1 & C1 & F1).
    destruct (attempt_fields file w) as (S0 & C0 & F0).
    cbv zeta in *. rewrite S1, C1, F1, S0, C0, F0.
    destruct (writable file); rewrite <- app_assoc; auto.
Qed.

(** While the callback returns, every file is tried and the callback is
    called after each. *)
Lemma add_files_returning (cb : progress) (all : Z) (files : list Path) :
  forall index w,
    returns_on cb all index (List.length files) ->
    let w' := add_files (Some cb) all index files w in
    stored w' = stored w ++ filter writable files
    /\ called w' = called w ++ progress_calls all index (List.length files)
    /\ failure w' = failure w.
Proof.
  induction files as [|file rest IH]; intros index w R;
    unfold returns_on in R; cbn [List.length] in R;
    cbn [add_files filter List.length].
  - cbn. rewrite !app_nil_r. auto.
  - destruct (R 1%nat) as [evs E]; [lia|].
    replace (index + Z.of_nat 1) with (index + 1) in E by lia.
    rewrite E. rewrite progress_calls_succ.
    destruct (attempt_fields file w) as (S0 & C0 & F0).
    match goal with
    | |- context [add_files _ _ _ rest ?w1] =>
        destruct (IH (index + 1) w1) as (S1 & C1 & F1)
    end.
    { intros k Hk. destruct (R (S k)) as [evs' E']; [lia|].
      exists evs'. rewrite <- E'. f_equal. lia. }
    cbv zeta in *. cbn [stored called failure] in *.
    rewrite S1, C1, F1, S0, C0, F0.
    destruct (writable file); rewrite <- !app_assoc; auto.
Qed.

(** The first call on which the callback raises ends the loop: the files
    after it are not tried. *)
Lemma add_files_raising (cb : progress) (all : Z) (e : exn) :
  forall (k : nat) (files : list Path) index w,
    (1 <= k <= List.length files)%nat ->
    returns_on cb all index (k - 1) ->
    cb all (index + Z.of_nat k) = Raises e ->
    let w' := add_files (Some cb) all index files w in
    stored w' = stored w ++ filter writable (firstn k files)
    /\ called w' = called w ++ progress_calls all index k
    /\ failure w' = Some e.
Proof.
  induction k as [|k IH]; intros files index w Hk R E; [lia|].
  destruct files as [|file rest]; [cbn in Hk; lia|].
  unfold returns_on in R. cbn [List.length] in Hk.
  replace (S k - 1)%nat with k in R by lia.
  cbn [add_files firstn filter]. rewrite progress_calls_succ.
  destruct (attempt_fields file w) as (S0 & C0 & F0).
  destruct k as [|k].
  - replace (index + Z.of_nat 1) with (index + 1) in E by lia.
    rewrite E. cbv zeta. cbn [stored called failure firstn filter].
    rewrite S0, C0. auto.
  - destruct (R 1%nat) as [evs E1]; [lia|].
    replace (index + Z.of_nat 1) with (index + 1) in E1 by lia.
    rewrite E1.
    match goal with
    | |- context [add_files _ _ _ rest ?w1] =>
        destruct (IH rest (index + 1) w1) as (S1 & C1 & F1)
    end.
    { cbn [List.length] in Hk. lia. }
    { intros j Hj. destruct (R (S j)) as [evs' E']; [lia|].
      exists evs'. rewrite <- E'. f_equal. lia. }
    { rewrite <- E. f_equal. lia. }
    cbv zeta in *. cbn [stored called failure] in *.
    rewrite S1, C1, F1, S0, C0.
    destruct (writable file); rewrite <- !app_assoc; auto.
Qed.

(** C6, as the code has it.  With a destination that does not exist yet,
    the builder calls [progress(total, doneCount)] after each file it tried,
    stored or skipped.  While the callback returns, the build returns the
    destination, the archive holds the files a build without callback
    stores, and the handle is closed.  The call on which the callback raises
    ends the build: the exception leaves [package_zip] and the files after
    that call are not tried. *)
Theorem package_zip_progress_calls
  (fuel : nat) (config : Configure) (filename : string) (cb : progress) :
  let files := selected config in
  let total := Z.of_nat (List.length files) in
  let path := joinpath (mk_path (backup_path config))
                       (format_file_name filename ++ "."
                        ++ zip_type config)%string in
  path_exists path = false ->
  exists b b0,
    package_zip (S fuel) config filename (Some cb) = Some b
    /\ package_zip (S fuel) config filename None = Some b0
    /\ value b0 = Returns path
    /\ members (file b0) = filter writable files
    /\ closed (file b0) = true
    /\ (returns_on cb total 0 (List.length files) ->
        value b = Returns path
        /\ calls b = progress_calls total 0 (List.length files)
        /\ members (file b) = members (file b0)
        /\ closed (file b) = true)
    /\ (forall (k : nat) (e : exn),
          (1 <= k <= List.length files)%nat ->
          returns_on cb total 0 (k - 1) ->
          cb total (Z.of_nat k) = Raises e ->
          value b = Raises e
          /\ calls b = progress_calls total 0 k
          /\ members (file b) = filter writable (firstn k files)).
Proof.
  intros files total path Hp. unfold package_zip.
  fold files. fold total. fold path.
  rewrite (settle_free fuel _ _ path 1 Hp).
  set (w0 := mkWriter (@nil Path) [] [] None).
  destruct (add_files_without total files 0 w0) as (S0 & C0 & F0).
  cbv zeta in S0, C0, F0. cbn [stored called failure w0] in S0, C0, F0.
  rewrite F0.
  eexists; eexists.
  split; [reflexivity|]. split; [reflexivity|].
  cbn [value file members closed calls]. rewrite S0. cbn [app].
  split; [reflexivity|]. split; [reflexivity|]. split; [reflexivity|].
  split.
  - intros R.
    destruct (add_files_returning cb total files 0 w0 R) as (S1 & C1 & F1).
    cbv zeta in S1, C1, F1. cbn [stored called failure w0] in S1, C1, F1.
    rewrite F1. cbn [value file members closed calls].
    rewrite S1, C1. auto.
  - intros k e Hk R E.
    destruct (add_files_raising cb total e k files 0 w0 Hk R E)
      as (S1 & C1 & F1).
    cbv zeta in S1, C1, F1. cbn [stored called failure w0] in S1, C1, F1.
    rewrite F1. cbn [value file members closed calls].
    rewrite S1, C1. auto.
Qed.

End BuilderFacts.

Lemma package_zip_progress_calls_witness :
  exists b b0,
    package_zip (FS := disk_fs ten_tree) 1 (default_config ["data/*"])
                "2024-01-01_00-00-00" (Some quiet) = Some b
    /\ package_zip (FS := disk_fs ten_tree) 1 (default_config ["data/*"])
                   "2024-01-01_00-00-00" None = Some b0
    /\ value b = value b0
    /\ calls b = progress_calls 10 0 10
    /\ members (file b) = members (file b0)
    /\ closed (file b) = true.
Proof.
  destruct (package_zip_progress_calls (FS := disk_fs ten_tree) 0
              (default_config ["data/*"]) "2024-01-01_00-00-00" quiet
              eq_refl)
    as (b & b0 & E & E0 & V0 & _ & _ & R & _).
  exists b, b0.
  destruct R as (V & C & M & K).
  { intros k _. exists []. reflexivity. }
  repeat split; try assumption.
  now rewrite V, V0.
Defined.

(** C6 as stated fails: a callback that raises on its first call ends the
    build with that exception. *)
Lemma package_zip_raising_callback_counterexample :
  ~ (forall cb : progress,
       exists b b0 path,
         package_zip (FS := disk_fs server_tree) 1
                     (default_config ["server/**/*"]) "2024-01-01_00-00-00"
                     (Some cb) = Some b
         /\ package_zip (FS := disk_fs server_tree) 1
                        (default_config ["server/**/*"])
                        "2024-01-01_00-00-00" None = Some b0
         /\ value b = Returns path
         /\ members (file b) = members (file b0)
         /\ closed (file b) = true).
Proof.
  intros H. destruct (H broken) as (b & b0 & path & E & _ & V & _).
  vm_compute in E. injection E as <-. discriminate V.
Qed.

(** With the callback [create_backup] passes, a backup of fewer than eight
    files ends in the error report. *)
Example create_backup_four_files :
  option_map trace
    (create_backup (FS := disk_fs server_tree) 1 "2024-01-01_00-00-00"
                   (idle (default_config ["server/**/*"])) None None false
                   true)
  = Some [Broadcast LineStarted; Execute "save-off";
          Execute "save-all flush"; LogException ZeroDivisionError;
          Broadcast LineFailed; Execute "save-on"].
Proof. reflexivity. Qed.

(* ================================================================== *)
(** * Part III: further properties of the code *)
(* ================================================================== *)

(** ** IntervalParser: every text *)

Section IntervalTotal.

Lemma int_from_refuses (d : string) : forall acc,
  all_decimal d = false -> int_from acc d = Raises ValueError.
Proof.
  induction d as [|c d IH]; intros acc H; [discriminate|].
  simpl in *. destruct (isdecimal c); [now apply IH | reflexivity].
Qed.

Lemma add_refuses (d : string) (r : Z) (s : option ascii) :
  all_decimal d = false -> add d r s = Raises ValueError.
Proof.
  intros H. unfold add. destruct d as [|c d]; [discriminate|].
  unfold int.
  destruct (max_str_digits <? Z.of_nat (String.length (String c d)));
    [reflexivity|].
  now rewrite int_from_refuses.
Qed.

Lemma int_from_raises (d : string) : forall acc e,
  int_from acc d = Raises e -> e = ValueError.
Proof.
  induction d as [|c d IH]; intros acc e; simpl; [discriminate|].
  destruct (isdecimal c); [apply IH | congruence].
Qed.

Lemma add_raises (d : string) (r : Z) (s : option ascii) (e : exn) :
  add d r s = Raises e -> e = ValueError.
Proof.
  unfold add. destruct d as [|c d]; [discriminate|].
  unfold int.
  destruct (max_str_digits <? Z.of_nat (String.length (String c d)));
    [simpl; congruence|].
  destruct (int_from 0 (String c d)) as [n|e'] eqn:E; [discriminate|].
  simpl. intros [= <-]. now apply int_from_raises in E.
Qed.

Lemma add_returns (d : string) (r : Z) (s : option ascii) (rd : Z * string) :
  add d r s = Returns rd -> snd rd = EmptyString.
Proof.
  unfold add.
  destruct (match d with EmptyString => Returns 1 | _ => int d end);
    simpl; [|discriminate].
  now intros [= <-].
Qed.

(** A digit run that [int] refuses is never dropped: the loop ends with it
    pending, or raises on the way. *)
Lemma scan_refused_digits (s : string) : forall d r,
  all_decimal d = false -> stuck (scan s d r).
Proof.
  induction s as [|c s IH]; intros d r H; simpl; [exact H|].
  destruct (isdigit c).
  - apply IH. rewrite all_decimal_app, H. reflexivity.
  - destruct (time_map c); [|now apply IH].
    rewrite (add_refuses d r _ H). reflexivity.
Qed.

Lemma scan_not_plain (s : string) : forall d r,
  plain_digits s = false -> stuck (scan s d r).
Proof.
  induction s as [|c s IH]; intros d r H; [discriminate|].
  simpl in H. simpl scan.
  destruct (isdigit c) eqn:D.
  - destruct (isdecimal c) eqn:E; simpl in H.
    + now apply IH.
    + apply scan_refused_digits.
      rewrite all_decimal_app. simpl. rewrite E. apply andb_false_r.
  - rewrite orb_true_r in H. simpl in H.
    destruct (time_map c); [|now apply IH].
    destruct (add d r (Some c)) as [rd|e] eqn:A; simpl.
    + now apply IH.
    + now apply add_raises in A.
Qed.

Lemma parse_interval_not_plain (s : string) :
  plain_digits s = false -> parse_interval s = Raises ValueError.
Proof.
  intros H. unfold parse_interval.
  pose proof (scan_not_plain (s ++ " ") "" 0) as K.
  rewrite plain_digits_space in K. specialize (K H).
  destruct (scan (s ++ " ") "" 0) as [[d r]|e]; simpl in *.
  - destruct d as [|c d]; [discriminate|].
    now rewrite (add_refuses _ r None K).
  - now subst e.
Qed.

Lemma interval_value_nonneg (s : string) : 0 <= interval_value s.
Proof.
  unfold interval_value.
  pose proof (total_nonneg _ (tokens_terms_decimal s)).
  pose proof (tokens_trailing_decimal s) as T.
  assert (0 <= trailing_value (snd (tokens s))).
  { destruct (snd (tokens s)); [simpl; lia|].
    apply (multiplier_nonneg _ T). }
  lia.
Qed.

(** X1.  What [parse_interval] does on every text of characters below
    code point 256: when each character [isdigit] accepts is a decimal digit
    and each digit run is at most 4300 digits long, it returns the sum of
    the terms plus the trailing digit run, which is not negative; otherwise
    it raises [ValueError]. *)
Theorem parse_interval_every_text (s : string) :
  parse_interval s
  = (if plain_digits s && within_limit s then Returns (interval_value s)
     else Raises ValueError)
  /\ 0 <= interval_value s.
Proof.
  split; [|apply interval_value_nonneg].
  destruct (plain_digits s) eqn:H.
  - now rewrite (parse_interval_grammar s H).
  - now apply parse_interval_not_plain.
Qed.

Lemma scan_space (s : string) : forall d r,
  scan (s ++ " ") d r = scan s d r.
Proof.
  induction s as [|c s IH]; intros d r; [reflexivity|].
  simpl. destruct (isdigit c); [apply IH|].
  destruct (time_map c); [|apply IH].
  destruct (add d r (Some c)); simpl; [apply IH | reflexivity].
Qed.

Lemma scan_keep_relevant (s : string) : forall d r,
  scan (keep relevant s) d r = scan s d r.
Proof.
  induction s as [|c s IH]; intros d r; [reflexivity|].
  unfold relevant. simpl.
  destruct (isdigit c) eqn:D; simpl.
  - rewrite D. apply IH.
  - destruct (time_map c) eqn:T; simpl.
    + rewrite D, T. destruct (add d r (Some c)); simpl;
        [apply IH | reflexivity].
    + apply IH.
Qed.

(** X2.  Characters that are neither digits nor unit letters do not
    count: the parser gives a text and the text without them the same
    answer. *)
Theorem parse_interval_passes_over (s : string) :
  parse_interval s = parse_interval (keep relevant s).
Proof.
  unfold parse_interval.
  now rewrite !scan_space, scan_keep_relevant.
Qed.

End IntervalTotal.

(** ** [format_file_name]: how it composes *)

Section FileNameMore.

Lemma map_chars_append (f : ascii -> ascii) (a b : string) :
  map_chars f (a ++ b) = map_chars f a ++ map_chars f b.
Proof. induction a as [|x a IH]; simpl; [reflexivity | now rewrite IH]. Qed.

Lemma map_chars_length (f : ascii -> ascii) (s : string) :
  String.length (map_chars f s) = String.length s.
Proof. induction s as [|x s IH]; simpl; [reflexivity | now rewrite IH]. Qed.

Lemma scrub_fixed (x : ascii) :
  Ascii.eqb (scrub x) x = negb (existsb (Ascii.eqb x) hostile).
Proof. every_char x. Qed.

Lemma existsb_contains (x : ascii) (s : string) (l : list ascii) :
  existsb (contains (String x s)) l
  = existsb (Ascii.eqb x) l || existsb (contains s) l.
Proof.
  change (existsb (contains (String x s)) l)
    with (existsb (fun c => Ascii.eqb x c || contains s c) l).
  induction l as [|c l IH]; cbn [existsb]; [reflexivity|].
  rewrite IH.
  destruct (Ascii.eqb x c), (contains s c), (existsb (Ascii.eqb x) l);
    reflexivity.
Qed.

(** X3.  The sanitizer works character by character: the name of a
    concatenation is the concatenation of the names, and a name keeps its
    length. *)
Theorem format_file_name_append (a b : string) :
  format_file_name (a ++ b) = format_file_name a ++ format_file_name b
  /\ String.length (format_file_name a) = String.length a.
Proof.
  rewrite !format_file_name_scrub. split.
  - apply map_chars_append.
  - apply map_chars_length.
Qed.

(** X4.  The names the sanitizer leaves alone are exactly those without a
    hostile character. *)
Theorem format_file_name_fixed_point (s : string) :
  format_file_name s = s <-> existsb (contains s) hostile = false.
Proof.
  rewrite format_file_name_scrub.
  induction s as [|x s IH].
  - split; reflexivity.
  - cbn [map_chars].
    rewrite existsb_contains, orb_false_iff, <- IH.
    pose proof (scrub_fixed x) as F.
    split.
    + intros [= Hx Hs]. split; [|assumption].
      rewrite Hx, Ascii.eqb_refl in F.
      now destruct (existsb (Ascii.eqb x) hostile).
    + intros [Hx Hs]. rewrite Hx in F. simpl in F.
      apply Ascii.eqb_eq in F. now rewrite F, Hs.
Qed.

End FileNameMore.

(** ** PathSelector: what the order of the rules does *)

Section SelectorMore.

Local Open Scope list_scope.

Context {Path : Type} {FS : FileSystem Path}.

Variable base : Path.

Lemma visits_exclude_nil (qs : list Path) :
  fold_left (visit true) qs [] = [].
Proof. induction qs as [|q qs IH]; simpl; [reflexivity | exact IH]. Qed.

Lemma excludes_keep_nil (rules : list string) :
  forallb is_exclude rules = true ->
  fold_left (apply_rule base) rules [] = [].
Proof.
  induction rules as [|r rules IH]; intros H; simpl in *; [reflexivity|].
  apply andb_prop in H as [Hr H].
  rewrite apply_rule_visits. unfold is_exclude in Hr. rewrite Hr.
  rewrite visits_exclude_nil. now apply IH.
Qed.

Lemma in_appended (rules : list string) (p : Path) :
  In p (appended base rules) ->
  exists rule, In rule rules /\ is_include rule = true
               /\ In p (matched base rule).
Proof.
  unfold appended. rewrite in_concat.
  intros (l & Hl & Hp). apply in_map_iff in Hl as (rule & <- & Hr).
  apply filter_In in Hr as [Hr Hi]. now exists rule.
Qed.

(** X6.  Every path returned was visited by an include rule of the
    list. *)
Theorem parse_paths_from_include (rules : list string) (p : Path) :
  In p (parse_paths base rules) ->
  exists rule, In rule rules /\ is_include rule = true
               /\ In p (matched base rule).
Proof.
  intros H. apply in_appended.
  eapply subsequence_In; [apply parse_paths_subsequence | exact H].
Qed.

(** X7.  A path no exclude rule visits is returned once for each time an
    include rule visited it: nothing else removes a path. *)
Theorem parse_paths_keeps_unexcluded (rules : list string) (p : Path) :
  (forall r, In r rules -> is_exclude r = true -> ~ In p (matched base r)) ->
  count_occ path_eq_dec (parse_paths base rules) p
  = count_occ path_eq_dec (appended base rules) p.
Proof.
  unfold parse_paths.
  induction rules as [|r rules IH] using rev_ind; intros H; [reflexivity|].
  rewrite fold_left_app, appended_snoc, count_occ_app. cbn [fold_left].
  rewrite count_apply_rule, IH.
  2:{ intros r' Hr'. apply H. apply in_or_app. now left. }
  unfold is_include, is_exclude in *.
  destruct (startswith r "!") eqn:E; cbn [negb].
  - assert (count_occ path_eq_dec (matched base r) p = 0%nat) as Z0.
    { apply count_occ_not_In, H; [apply in_or_app; right; now left|].
      exact E. }
    cbn [count_occ]. lia.
  - reflexivity.
Qed.

End SelectorMore.

Lemma parse_paths_from_include_witness :
  exists rule,
    In rule ["server/**/*"; "!server/logs/**"]
    /\ is_include rule = true
    /\ In level_dat (matched (FS := disk_fs server_tree) "" rule).
Proof.
  apply (parse_paths_from_include (FS := disk_fs server_tree)).
  vm_compute. auto.
Defined.

Lemma parse_paths_keeps_unexcluded_witness :
  count_occ string_dec
    (parse_paths (FS := disk_fs server_tree) ""
                 ["server/**/*"; "server/world/*"; "!server/logs/**"])
    level_dat
  = count_occ string_dec
      (appended (FS := disk_fs server_tree) ""
                ["server/**/*"; "server/world/*"; "!server/logs/**"])
      level_dat.
Proof.
  apply (parse_paths_keeps_unexcluded (FS := disk_fs server_tree)).
  intros r Hr He Hin.
  destruct Hr as [<-|[<-|[<-|[]]]]; try discriminate He.
  vm_compute in Hin. intuition discriminate.
Defined.

(** ** PathSelector with the patterns [rglob] refuses *)

Section SelectorErrors.

Local Open Scope list_scope.

Context {Path : Type} {FS : FileSystem Path} {GE : GlobErrors Path}.

Variable base : Path.


Lemma apply_rule_outcome_returns (paths l : list Path) (rule : string) :
  apply_rule_outcome base paths rule = Returns l ->
  l = apply_rule base paths rule.
Proof.
  unfold apply_rule_outcome, apply_rule, rglob_outcome.
  destruct (is_file (mk_path (tail rule))); [congruence|].
  destruct (rglob_error base
              (if startswith rule "!" then tail rule else rule));
    cbn [bind]; congruence.
Qed.

(** When the call returns, it returns the list of [parse_paths]. *)
Lemma run_rules_returns (rules : list string) : forall paths l,
  run_rules base rules paths = Returns l ->
  l = fold_left (apply_rule base) rules paths.
Proof.
  induction rules as [|rule rules IH]; intros paths l; cbn [run_rules fold_left].
  - congruence.
  - destruct (apply_rule_outcome base paths rule) as [l1|e] eqn:E;
      cbn [bind]; [|discriminate].
    apply apply_rule_outcome_returns in E. subst l1. apply IH.
Qed.




End SelectorErrors.

Lemma selected_outcome_returns {Path : Type} {FS : FileSystem Path}
      {GE : GlobErrors Path} (config : Configure) (files : list Path) :
  selected_outcome config = Returns files -> files = selected config.
Proof.
  unfold selected_outcome, parse_paths_outcome, selected, parse_paths.
  destruct (run_rules BASE_PATH (files_rules config) []) as [l|e] eqn:E;
    cbn [bind]; [|discriminate].
  apply run_rules_returns in E. intros [= <-]. now subst l.
Qed.


(** ** ArchiveBuilder: what ends up in the archive and what is reported *)

Section BuilderMore.

Local Open Scope list_scope.

Context {Path : Type} {FS : FileSystem Path} {GE : GlobErrors Path}.

Lemma subsequence_nil {A : Type} (l : list A) : subsequence [] l.
Proof. induction l; constructor; assumption. Qed.

Lemma attempt_sent (file : Path) (w : writer Path) :
  sent (attempt file w) = sent w ++ report file.
Proof.
  unfold attempt, report.
  destruct (archive_add file) as [[]|]; cbn [sent];
    now rewrite ?app_nil_r.
Qed.

(** Whatever the callback does, the loop stores files of its list, in
    order, that the archive accepted. *)
Lemma add_files_stored (cb : option progress) (all : Z) (files : list Path) :
  forall index w,
  exists l,
    stored (add_files cb all index files w) = stored w ++ l
    /\ subsequence l files
    /\ Forall (fun p => writable p = true) l.
Proof.
  induction files as [|file rest IH]; intros index w; cbn [add_files].
  - exists []. rewrite app_nil_r. repeat split; constructor.
  - destruct (attempt_fields file w) as (S0 & _ & _).
    assert (forall w1, stored w1 = stored (attempt file w) ->
              exists l, stored (add_files cb all (index + 1) rest w1)
                        = stored w ++ l
                        /\ subsequence l (file :: rest)
                        /\ Forall (fun p => writable p = true) l) as Step.
    { intros w1 E1. destruct (IH (index + 1) w1) as (l & E & Sub & F).
      rewrite E, E1, S0, <- app_assoc.
      destruct (writable file) eqn:W.
      - exists (file :: l). repeat split; [now apply sub_keep|].
        now constructor.
      - exists l. repeat split; [now apply sub_skip | assumption]. }
    destruct cb as [cb|]; [|now apply Step].
    destruct (cb all (index + 1)) as [evs|e]; [now apply Step|].
    cbn [stored]. rewrite S0.
    destruct (writable file) eqn:W.
    + exists [file]. repeat split.
      * apply sub_keep, subsequence_nil.
      * now repeat constructor.
    + exists []. repeat split; [apply subsequence_nil | constructor].
Qed.

(** X8.  When [rglob] takes the rules, so that the selection is made, a
    build into a zip archive that ends, in either way and under any
    callback, has stored only files of the selection, in its order; none
    of them has a text ending in [session.lock]; and the archive is at the
    first destination. *)
Theorem package_zip_members (fuel : nat) (config : Configure)
  (filename : string) (callback : option progress) (b : build Path)
  (files held : list Path) :
  selected_outcome config = Returns files ->
  package_zip fuel config filename callback = Some b ->
  zip_contents (file b) = Some held ->
  subsequence held files
  /\ Forall (fun p => endswith (path_str p) "session.lock" = false) held
  /\ target (file b) = destination config filename.
Proof.
  intros Sel. apply selected_outcome_returns in Sel. subst files.
  unfold package_zip.
  destruct (settle _ _ _ _ _) as [[path index]|] eqn:E; [|discriminate].
  assert (path = destination config filename) as ->.
  { clear -E. unfold destination.
    revert E. generalize 1.
    generalize (joinpath (mk_path (backup_path config))
                  (format_file_name filename ++ "." ++ zip_type config)%string).
    induction fuel as [|fuel IH]; intros p i; simpl; [discriminate|].
    destruct (path_exists p); [apply IH | congruence]. }
  set (w0 := mkWriter (@nil Path) [] [] None).
  destruct (add_files_stored callback
              (Z.of_nat (List.length (selected config))) (selected config)
              0 w0) as (l & El & Sub & F).
  cbn [stored w0 app] in El.
  assert (Forall (fun p => endswith (path_str p) "session.lock" = false) l)
    as Good.
  { apply Forall_forall. intros p Hp.
    pose proof (subsequence_In _ _ p Sub Hp) as Hs.
    unfold selected in Hs. apply filter_In in Hs as [_ Hs].
    now apply negb_true_iff in Hs. }
  unfold zip_contents.
  destruct (failure _); intros [= <-]; cbn [file members target format];
    (destruct (container_of _); [discriminate | discriminate |]);
    intros [= <-]; rewrite El; auto.
Qed.



End BuilderMore.

Lemma package_zip_members_witness :
  subsequence ["data/0"] ["data/0"; "data/1"; "data/2"; "data/3"; "data/4";
                         "data/5"; "data/6"; "data/7"; "data/8"; "data/9"]
  /\ Forall (fun p => endswith p "session.lock" = false) ["data/0"]
  /\ "permanent_backup/2024-01-01_00-00-00.zip"
     = destination (FS := disk_fs ten_tree) (default_config ["data/*"])
                   "2024-01-01_00-00-00".
Proof.
  exact (package_zip_members (FS := disk_fs ten_tree) (GE := pathlib_errors)
           1 (default_config ["data/*"]) "2024-01-01_00-00-00" (Some broken)
           _ _ _ eq_refl eq_refl eq_refl).
Defined.


(** ** ArchiveBuilder under [send_now], from eight files on *)

Section ThrottleFacts.

Local Open Scope list_scope.

Context {Path : Type} {FS : FileSystem Path}.

Lemma send_now_emits (all now : Z) :
  8 <= all ->
  send_now all now
  = Returns (if emits all now then [Broadcast (LineProgress all now)]
             else []).
Proof. intros H. now rewrite send_now_from_eight. Qed.

Lemma send_now_returns_on (all index : Z) (n : nat) :
  8 <= all -> returns_on send_now all index n.
Proof.
  intros H k _. rewrite send_now_emits by assumption. eauto.
Qed.

Lemma report_not_progress (file : Path) :
  filter is_progress (report file) = [].
Proof. unfold report. now destruct (archive_add file) as [[]|]. Qed.

Lemma add_files_send_now_lines (all : Z) (files : list Path) :
  8 <= all ->
  forall index w,
    filter is_progress (sent (add_files (Some send_now) all index files w))
    = filter is_progress (sent w) ++ lines_from all index (List.length files).
Proof.
  intros H. induction files as [|file rest IH]; intros index w;
    cbn [add_files List.length lines_from].
  - now rewrite app_nil_r.
  - rewrite send_now_emits by assumption. rewrite IH. cbn [sent].
    rewrite !filter_app, attempt_sent, filter_app, report_not_progress.
    rewrite app_nil_r, <- app_assoc. f_equal. f_equal.
    now destruct (emits all (index + 1)).
Qed.

Lemma lines_from_seq (all index : Z) (n : nat) : forall s,
  lines_from all (index + Z.of_nat s) n
  = map (fun k => Broadcast (LineProgress all (index + Z.of_nat k)))
        (filter (fun k => emits all (index + Z.of_nat k)) (seq (S s) n)).
Proof.
  induction n as [|n IH]; intros s; [reflexivity|].
  cbn [lines_from seq filter].
  replace (index + Z.of_nat s + 1) with (index + Z.of_nat (S s)) by lia.
  rewrite IH.
  now destruct (emits all (index + Z.of_nat (S s))).
Qed.

(** The lines are those of the calls on which the test of [send_now]
    holds. *)
Lemma lines_from_filter (all : Z) (n : nat) (index : Z) :
  lines_from all index n
  = map (fun k => Broadcast (LineProgress all (index + Z.of_nat k)))
        (filter (fun k => emits all (index + Z.of_nat k)) (seq 1 n)).
Proof.
  rewrite <- (lines_from_seq all index n 0). f_equal. simpl. lia.
Qed.

Lemma div_succ (q i : Z) :
  0 < q -> (i + 1) / q = i / q + (if (i + 1) mod q =? 0 then 1 else 0).
Proof.
  intros Hq.
  pose proof (Z.div_mod i q ltac:(lia)) as E1.
  pose proof (Z.mod_pos_bound i q Hq) as B1.
  pose proof (Z.div_mod (i + 1) q ltac:(lia)) as E2.
  pose proof (Z.mod_pos_bound (i + 1) q Hq) as B2.
  destruct ((i + 1) mod q =? 0) eqn:T.
  - apply Z.eqb_eq in T. nia.
  - apply Z.eqb_neq in T. nia.
Qed.

(** Between the multiples of the eighth and one more for the last file. *)
Lemma lines_from_count (all q : Z) (n : nat) :
  q = all / 8 -> 0 < q ->
  forall index,
    (index + Z.of_nat n) / q - index / q
    <= Z.of_nat (List.length (lines_from all index n))
    <= (index + Z.of_nat n) / q - index / q
       + (if (index <? all) && (all <=? index + Z.of_nat n) then 1 else 0).
Proof.
  intros Eq Hq. induction n as [|n IH]; intros index.
  - cbn [lines_from List.length]. change (Z.of_nat 0) with 0.
    rewrite Z.add_0_r.
    destruct ((index <? all) && (all <=? index)); lia.
  - cbn [lines_from]. rewrite length_app, Nat2Z.inj_add.
    specialize (IH (index + 1)).
    replace (index + 1 + Z.of_nat n) with (index + Z.of_nat (S n)) in IH
      by lia.
    pose proof (div_succ q index Hq) as D.
    unfold emits. rewrite <- Eq.
    destruct ((index + 1) mod q =? 0) eqn:M;
      destruct (all =? index + 1) eqn:A; cbn [orb List.length];
      [apply Z.eqb_eq in A | apply Z.eqb_neq in A
       | apply Z.eqb_eq in A | apply Z.eqb_neq in A];
      destruct ((index + 1 <? all) && (all <=? index + Z.of_nat (S n))) eqn:B1;
      destruct ((index <? all) && (all <=? index + Z.of_nat (S n))) eqn:B2;
      try lia;
      rewrite ?andb_true_iff, ?andb_false_iff, ?Z.ltb_lt, ?Z.leb_le,
        ?Z.ltb_ge, ?Z.leb_gt in B1, B2; lia.
Qed.

(** X10.  From eight selected files on, and with a destination that does
    not exist yet, the build under [send_now] returns the destination and
    closes the archive with the files it accepted.  The progress lines sent
    are those of the calls whose count is a multiple of the eighth of the
    total, rounded down, or is the total; there are at least 8 and at most
    16 of them. *)
Theorem package_zip_throttled (fuel : nat) (config : Configure)
  (filename : string) :
  let n := List.length (selected config) in
  (8 <= n)%nat ->
  path_exists (destination config filename) = false ->
  exists b,
    package_zip (S fuel) config filename (Some send_now) = Some b
    /\ value b = Returns (destination config filename)
    /\ closed (file b) = true
    /\ members (file b) = filter writable (selected config)
    /\ filter is_progress (events b)
       = map (fun k => Broadcast (LineProgress (Z.of_nat n) (Z.of_nat k)))
             (filter (fun k => emits (Z.of_nat n) (Z.of_nat k)) (seq 1 n))
    /\ (8 <= List.length (filter is_progress (events b)) <= 16)%nat.
Proof.
  intros n Hn Hp. unfold package_zip. cbv zeta.
  fold (destination config filename). fold n.
  rewrite (settle_free fuel _ _ _ 1 Hp).
  assert (8 <= Z.of_nat n) as Hz by lia.
  set (w0 := mkWriter (@nil Path) [] [] None).
  destruct (add_files_returning send_now (Z.of_nat n) (selected config) 0 w0
              (send_now_returns_on _ _ _ Hz)) as (S1 & _ & F1).
  pose proof (add_files_send_now_lines (Z.of_nat n) (selected config) Hz 0 w0)
    as L.
  cbv zeta in S1, F1. cbn [stored failure sent w0 filter app] in S1, F1, L.
  fold n in L. unfold progress in *.
  rewrite F1. eexists. split; [reflexivity|].
  cbn [value file closed members events].
  rewrite S1, L. repeat split.
  - now rewrite lines_from_filter.
  - assert (0 < Z.of_nat n / 8) as Hq
        by (apply Z.div_str_pos; lia).
    pose proof (lines_from_count (Z.of_nat n) _ n eq_refl Hq 0) as [Lo _].
    rewrite Z.add_0_l, Z.div_0_l, Z.sub_0_r in Lo by lia.
    assert (8 <= Z.of_nat n / (Z.of_nat n / 8)).
    { apply Z.div_le_lower_bound; [assumption|].
      pose proof (Z.mul_div_le (Z.of_nat n) 8). lia. }
    lia.
  - assert (0 < Z.of_nat n / 8) as Hq
        by (apply Z.div_str_pos; lia).
    pose proof (lines_from_count (Z.of_nat n) _ n eq_refl Hq 0) as [_ Hi].
    rewrite Z.add_0_l, Z.div_0_l, Z.sub_0_r in Hi by lia.
    assert (Z.of_nat n / (Z.of_nat n / 8) < 16).
    { apply Z.div_lt_upper_bound; [assumption|].
      pose proof (Z.mod_pos_bound (Z.of_nat n) 8 ltac:(lia)).
      pose proof (Z.div_mod (Z.of_nat n) 8 ltac:(lia)). lia. }
    destruct ((0 <? Z.of_nat n) && (Z.of_nat n <=? Z.of_nat n)); lia.
Qed.

End ThrottleFacts.

Lemma package_zip_throttled_witness :
  exists b,
    package_zip (FS := disk_fs ten_tree) 1 (default_config ["data/*"])
                "2024-01-01_00-00-00" (Some send_now) = Some b
    /\ value b = Returns "permanent_backup/2024-01-01_00-00-00.zip"
    /\ closed (file b) = true
    /\ members (file b)
       = filter (writable (FS := disk_fs ten_tree))
                (selected (FS := disk_fs ten_tree) (default_config ["data/*"]))
    /\ filter is_progress (events b)
       = map (fun k => Broadcast (LineProgress 10 (Z.of_nat k)))
             (filter (fun k => emits 10 (Z.of_nat k)) (seq 1 10))
    /\ (8 <= List.length (filter is_progress (events b)) <= 16)%nat.
Proof.
  apply (package_zip_throttled (FS := disk_fs ten_tree) 0
           (default_config ["data/*"]) "2024-01-01_00-00-00").
  - vm_compute. lia.
  - reflexivity.
Defined.

(** ** BackupCoordinator: acknowledged runs *)

Section CoordinatorMore.

Local Open Scope list_scope.

Context {Path : Type} {FS : FileSystem Path}.

(** X11.  A run entered while no run is in progress ([_backup_ing]
    clear) and taken alone, whose save is acknowledged and that ends, has
    sent [save-off] and [save-all flush] before anything of the packaging
    and [save-on] once after all of it, whether packaging returned or
    raised; the done callback, when given, comes last; the lock is free
    and [_backup_ing] is clear. *)
Theorem create_backup_brackets_packaging (fuel : nat) (now_text : string)
  (self : Timer) (source : option source) (cmt : option string)
  (done_callback : bool) (f : finish) :
  enabled (config self) = true ->
  backup_ing self = false ->
  create_backup fuel now_text self source cmt done_callback true = Some f ->
  exists body,
    trace f
    = [Broadcast LineStarted; Execute "save-off"; Execute "save-all flush"]
      ++ body ++ [Execute "save-on"]
      ++ (if done_callback then [DoneCallback] else [])
    /\ Forall silent body
    /\ creating_backup (timer f) = false
    /\ backup_ing (timer f) = false
    /\ uncaught f = None.
Proof.
  intros He Hb. unfold create_backup. rewrite Hb, He. cbn [negb andb].
  destruct (attempt_backup _ _ _ _) as [[body raised]|] eqn:E; [|discriminate].
  apply attempt_backup_silent in E.
  cbn [acquire snd set_backup_ing set_saved_game_event release
       creating_backup config backup_ing saved_game_event].
  intros F.
  apply (f_equal (fun o => match o with Some x => x | None => f end)) in F.
  cbv beta iota in F. subst f.
  cbv zeta. cbn [trace timer uncaught creating_backup backup_ing send
                 flat_map app].
  exists (body ++ match raised with
                  | Some e => [LogException e; Broadcast LineFailed]
                  | None => []
                  end).
  split; [|split].
  - destruct raised, done_callback; cbn [app];
      rewrite <- ?app_assoc; reflexivity.
  - apply Forall_app. split; [assumption|].
    destruct raised; repeat constructor.
  - auto.
Qed.

(** X12.  A saved-game event set before the run does not count: the run
    clears it, so a call that is not turned away does the same whatever the
    event was. *)
Theorem create_backup_clears_event (fuel : nat) (now_text : string)
  (self : Timer) (source : option source) (cmt : option string)
  (done_callback ack stale : bool) :
  enabled (config self) = true ->
  backup_ing self && given source = false ->
  create_backup fuel now_text (set_saved_game_event self stale) source cmt
                done_callback ack
  = create_backup fuel now_text self source cmt done_callback ack.
Proof.
  intros He Hb. unfold create_backup.
  cbn [set_saved_game_event backup_ing config].
  rewrite Hb, He. reflexivity.
Qed.


End CoordinatorMore.

Lemma create_backup_brackets_packaging_witness :
  exists body,
    trace four_files_run
    = ([Broadcast LineStarted; Execute "save-off"; Execute "save-all flush"]
       ++ body ++ [Execute "save-on"] ++ [])%list
    /\ Forall silent body
    /\ creating_backup (timer four_files_run) = false
    /\ backup_ing (timer four_files_run) = false
    /\ uncaught four_files_run = None.
Proof.
  exact (create_backup_brackets_packaging (FS := disk_fs server_tree) 1
           "2024-01-01_00-00-00" (idle (default_config ["server/**/*"]))
           None None false four_files_run eq_refl eq_refl eq_refl).
Defined.

Lemma create_backup_clears_event_witness :
  create_backup (FS := disk_fs ten_tree) 1 "2024-01-01_00-00-00"
    (set_saved_game_event (idle (default_config ["data/*"])) true)
    None None false false
  = create_backup (FS := disk_fs ten_tree) 1 "2024-01-01_00-00-00"
      (idle (default_config ["data/*"])) None None false false.
Proof.
  apply (create_backup_clears_event (FS := disk_fs ten_tree));
    reflexivity.
Defined.


(** ** BackupCoordinator: which runs fail *)

Section FailureThreshold.

Local Open Scope list_scope.

Context {Path : Type} {FS : FileSystem Path} {GE : GlobErrors Path}.








End FailureThreshold.


(** ** Save acknowledgment *)

Section AcknowledgeFacts.

(** X15.  [on_info] changes the timer in one case only: information that
    does not come from a user, with a text that is one of the keywords,
    while a run is in progress and the event is clear; the change is that
    the event is set. *)
Theorem on_info_sets_event_only (keywords : list string) (self : Timer)
  (is_user : bool) (content : option string) :
  on_info keywords (Some self) is_user content = Some self
  \/ (on_info keywords (Some self) is_user content
      = Some (set_saved_game_event self true)
      /\ is_user = false
      /\ backup_ing self = true
      /\ saved_game_event self = false
      /\ exists text, content = Some text /\ In text keywords).
Proof.
  unfold on_info, on_message.
  destruct content as [[|c text]|]; cbn [truthy]; auto.
  destruct is_user; cbn [negb]; auto.
  destruct (backup_ing self); cbn [andb]; auto.
  destruct (saved_game_event self); cbn [andb negb]; auto.
  destruct (existsb (String.eqb (String c text)) keywords) eqn:E; auto.
  right. repeat split. exists (String c text). split; [reflexivity|].
  apply existsb_exists in E as (k & Hk & Ek).
  apply String.eqb_eq in Ek. now subst k.
Qed.

(** X16.  The event fires once: after a keyword message, any further
    message leaves the timer as it is. *)
Theorem on_message_fires_once (keywords : list string) (self : Timer)
  (content later : string) :
  existsb (String.eqb content) keywords = true ->
  on_message keywords (on_message keywords self content) later
  = on_message keywords self content.
Proof.
  intros H. unfold on_message. rewrite H.
  destruct (backup_ing self) eqn:B, (saved_game_event self) eqn:S;
    cbn [andb negb set_saved_game_event backup_ing saved_game_event];
    rewrite ?B, ?S; reflexivity.
Qed.

End AcknowledgeFacts.

Lemma on_message_fires_once_witness :
  on_message ["Saved the game"; "Saved the world"]
    (on_message ["Saved the game"; "Saved the world"]
                (busy (default_config [])) "Saved the game")
    "Saved the world"
  = on_message ["Saved the game"; "Saved the world"]
               (busy (default_config [])) "Saved the game".
Proof. apply on_message_fires_once. reflexivity. Defined.

(** ** The periodic loop *)

Section SchedulerFacts.

Local Open Scope list_scope.

Lemma parse_interval_returns_nonneg (s : string) (v : Z) :
  parse_interval s = Returns v -> 0 <= v.
Proof.
  destruct (plain_digits s) eqn:P.
  - rewrite (parse_interval_grammar s P).
    destruct (within_limit s); [|discriminate].
    intros [= <-]. apply interval_value_nonneg.
  - now rewrite (parse_interval_not_plain s P).
Qed.

Lemma last_cons_default (l : list Z) : forall a d,
  List.last (a :: l) d = List.last l a.
Proof.
  induction l as [|x l IH]; intros a d; [reflexivity|].
  change (List.last (a :: x :: l) d) with (List.last (x :: l) d).
  now rewrite !IH.
Qed.

(** X17.  While the plugin is disabled the loop starts nothing, leaves
    [last_backup_time] alone and does not read the interval, so it cannot
    end on an exception. *)
Theorem loop_disabled (ticks : list tick) (last : Z) :
  forallb (fun t => negb (enabled_now t)) ticks = true ->
  started (loop ticks last) = []
  /\ last_backup_time (loop ticks last) = last
  /\ (ending (loop ticks last) = Running
      \/ ending (loop ticks last) = Returned).
Proof.
  induction ticks as [|t ticks IH]; intros H; cbn [loop].
  - auto.
  - cbn [forallb] in H. apply andb_prop in H as [Ht H].
    destruct (stop_seen t); [auto|].
    rewrite Ht. now apply IH.
Qed.


(** X19.  With a clock that does not go back between the test and the
    assignment, [last_backup_time] only advances: the readings at which
    backups were started increase strictly from the initial value, and
    [last_backup_time] is the latest of them. *)
Theorem loop_advances (ticks : list tick) (last : Z) :
  forallb (fun t => clock t <=? clock_at_trigger t) ticks = true ->
  StronglySorted Z.lt (last :: started (loop ticks last))
  /\ last_backup_time (loop ticks last)
     = List.last (started (loop ticks last)) last.
Proof.
  revert last.
  induction ticks as [|t ticks IH]; intros last H; cbn [loop].
  - split; [repeat constructor | reflexivity].
  - cbn [forallb] in H. apply andb_prop in H as [Ht H].
    apply Z.leb_le in Ht.
    destruct (stop_seen t); [split; [repeat constructor | reflexivity]|].
    destruct (enabled_now t); cbn [negb]; [|now apply IH].
    destruct (parse_interval (interval_now t)) as [v|e] eqn:P;
      [|split; [repeat constructor | reflexivity]].
    apply parse_interval_returns_nonneg in P.
    destruct (clock t - last >? v) eqn:D; [|now apply IH].
    destruct (startup t); [|now apply IH].
    apply Z.gtb_lt in D.
    destruct (IH (clock_at_trigger t) H) as [Sorted Last].
    cbn [started last_backup_time]. split.
    + apply StronglySorted_inv in Sorted as Inv. destruct Inv as [_ All].
      constructor; [assumption|]. constructor; [lia|].
      eapply Forall_impl; [|exact All]. cbn beta. intros x Hx. lia.
    + rewrite Last. symmetry. apply last_cons_default.
Qed.

(** X23.  With one interval text throughout and a clock that does not go
    back between the test and the assignment, backups are started more than
    the interval apart, the first more than the interval after the initial
    [last_backup_time]. *)
Theorem loop_spacing (ticks : list tick) (interval : string) (v last : Z) :
  parse_interval interval = Returns v ->
  forallb (fun t => String.eqb (interval_now t) interval
                    && (clock t <=? clock_at_trigger t)) ticks = true ->
  StronglySorted (fun a b => a + v < b) (last :: started (loop ticks last)).
Proof.
  intros P. pose proof (parse_interval_returns_nonneg _ _ P) as Hv.
  revert last.
  induction ticks as [|t ticks IH]; intros last H; cbn [loop].
  - repeat constructor.
  - cbn [forallb] in H. apply andb_prop in H as [Ht H].
    apply andb_prop in Ht as [Hi Hc].
    apply String.eqb_eq in Hi. apply Z.leb_le in Hc.
    destruct (stop_seen t); [repeat constructor|].
    destruct (enabled_now t); cbn [negb]; [|now apply IH].
    rewrite Hi, P.
    destruct (clock t - last >? v) eqn:D; [|now apply IH].
    destruct (startup t); [|now apply IH].
    apply Z.gtb_lt in D. cbn [started].
    specialize (IH (clock_at_trigger t) H).
    apply StronglySorted_inv in IH as Inv. destruct Inv as [_ All].
    constructor; [assumption|]. constructor; [lia|].
    eapply Forall_impl; [|exact All]. cbn beta. intros x Hx. lia.
Qed.

(** X20.  [stop] takes effect at the first pass that sees it: the passes
    after it change nothing, and the loop has ended. *)
Theorem loop_stops (before : list tick) (t : tick) (after : list tick)
  (last : Z) :
  stop_seen t = true ->
  loop (before ++ t :: after) last = loop (before ++ [t]) last
  /\ ending (loop (before ++ t :: after) last) <> Running.
Proof.
  intros Hs. revert last.
  induction before as [|b before IH]; intros last; cbn [app loop].
  - rewrite Hs. split; [reflexivity | discriminate].
  - destruct (stop_seen b); [split; [reflexivity | discriminate]|].
    destruct (enabled_now b); cbn [negb]; [|apply IH].
    destruct (parse_interval (interval_now b));
      [|split; [reflexivity | discriminate]].
    destruct (clock b - last >? a); [|apply IH].
    destruct (startup b); [|apply IH].
    destruct (IH (clock_at_trigger b)) as [E N].
    cbn [ending]. split; [now rewrite E | assumption].
Qed.

End SchedulerFacts.

(** ** [convert_bytes] *)

Section ReportFacts.










End ReportFacts.

Lemma loop_disabled_witness :
  started (loop [mkTick false false "2d" 10 true 10] 0) = []
  /\ last_backup_time (loop [mkTick false false "2d" 10 true 10] 0) = 0
  /\ (ending (loop [mkTick false false "2d" 10 true 10] 0) = Running
      \/ ending (loop [mkTick false false "2d" 10 true 10] 0) = Returned).
Proof. apply loop_disabled. reflexivity. Defined.


Lemma loop_advances_witness :
  StronglySorted Z.lt (0 :: started (loop hourly 0))
  /\ last_backup_time (loop hourly 0)
     = List.last (started (loop hourly 0)) 0.
Proof. apply loop_advances. reflexivity. Defined.

Lemma loop_stops_witness :
  loop ([mkTick false true "1h" 3601 true 3602]
        ++ mkTick true true "1h" 3700 true 3700
        :: [mkTick false true "1h" 7300 true 7301]) 0
  = loop ([mkTick false true "1h" 3601 true 3602]
          ++ [mkTick true true "1h" 3700 true 3700]) 0
  /\ ending (loop ([mkTick false true "1h" 3601 true 3602]
                   ++ mkTick true true "1h" 3700 true 3700
                   :: [mkTick false true "1h" 7300 true 7301]) 0)
     <> Running.
Proof. apply loop_stops. reflexivity. Defined.

Lemma loop_spacing_witness :
  StronglySorted (fun a b => a + 3600 < b) (0 :: started (loop hourly 0)).
Proof. apply (loop_spacing hourly "1h" 3600 0); reflexivity. Defined.
